(** * Global storage IPC channel (vs/platform/storage/node/storageIpc.ts)

    A shallow embedding of the owner-side [GlobalStorageDatabaseChannel]
    (the Gateway) and the client-side [GlobalStorageDatabaseChannelClient]
    (the Proxy), together with the collaborators they call. *)

From Stdlib Require Import String List Bool Arith Lia.
Import ListNotations.
Local Open Scope string_scope.
Local Open Scope list_scope.

Set Implicit Arguments.

(** ** Values on the wire

    [type Key = string; type Value = string; type Item = [Key, Value]].
    At run time a value slot can also hold [null] (written by
    [initTelemetry]) or [undefined] (the result of a [get] without
    fallback), so the embedding keeps the three apart. *)

Definition Key := string.

Inductive Value : Type :=
| VString (s : string)
| VNull
| VUndefined.

Definition Item : Type := (Key * Value)%type.

(** [x === undefined] *)
Definition isUndefined (v : Value) : bool :=
  match v with VUndefined => true | _ => false end.

(** Synchronous exceptions ([throw new Error(...)], [TypeError]). *)
Inductive result (A : Type) : Type :=
| Ok (a : A)
| Throw (msg : string).
Arguments Ok {A} a.
Arguments Throw {A} msg.

(** ** ECMAScript [Map] with string keys

    A [Map] iterates in insertion order; [set] on a present key replaces
    the value in place, on an absent key appends.  The entries are kept
    as an association list in iteration order. *)
Module JsMap.
Section WithValues.
Variable V : Type.

Definition t : Type := list (Key * V).

Definition empty : t := [].

Fixpoint get (k : Key) (m : t) : option V :=
  match m with
  | [] => None
  | (k', v) :: rest => if String.eqb k k' then Some v else get k rest
  end.

Definition has (k : Key) (m : t) : bool :=
  match get k m with Some _ => true | None => false end.

Fixpoint set (k : Key) (v : V) (m : t) : t :=
  match m with
  | [] => [(k, v)]
  | (k', v') :: rest =>
      if String.eqb k k' then (k', v) :: rest else (k', v') :: set k v rest
  end.

(** [delete] drops the entry of the key (a [Map] holds at most one). *)
Fixpoint delete (k : Key) (m : t) : t :=
  match m with
  | [] => []
  | (k', v') :: rest =>
      if String.eqb k k' then delete k rest else (k', v') :: delete k rest
  end.

Definition size (m : t) : nat := length m.

Definition keys (m : t) : list Key := map fst m.

(** The entries of a [Map] have pairwise different keys. *)
Definition wf (m : t) : Prop := NoDup (keys m).

(** [m.forEach((value, key) => f(acc, key, value))] *)
Definition forEach {A : Type} (f : A -> Key -> V -> A) (m : t) (acc : A) : A :=
  fold_left (fun a kv => f a (fst kv) (snd kv)) m acc.
End WithValues.

Arguments empty {V}.
Arguments get {V} k m.
Arguments has {V} k m.
Arguments set {V} k v m.
Arguments delete {V} k m.
Arguments size {V} m.
Arguments keys {V} m.
Arguments wf {V} m.
Arguments forEach {V A} f m acc.
End JsMap.

(** ** ECMAScript [Set] of strings: the elements in insertion order. *)
Module JsSet.
Definition t : Type := list Key.
Definition size (s : t) : nat := length s.
Definition forEach {A : Type} (f : A -> Key -> A) (s : t) (acc : A) : A :=
  fold_left f s acc.
End JsSet.

(** ** Codec (vs/base/common/map) *)

(** Modelled from the spec: [mapToSerializable] of vs/base/common/map is
    not part of the sources at hand.  "encode(mapping) -> ordered sequence
    of Item": one [[key, value]] pair is pushed per entry, in the map's
    iteration order. *)
Definition mapToSerializable (m : JsMap.t Value) : list Item :=
  JsMap.forEach (fun acc k v => acc ++ [(k, v)]) m [].

(** Modelled from the spec: [serializableToMap] of vs/base/common/map is
    not part of the sources at hand.  "decode(sequence of Item) ->
    mapping", with "straightforward left-to-right insertion semantics"
    (on duplicate keys the last occurrence wins). *)
Definition serializableToMap (l : list Item) : JsMap.t Value :=
  fold_left (fun items kv => JsMap.set (fst kv) (snd kv) items) l JsMap.empty.

(** Modelled from the spec: [values] of vs/base/common/map is not part of
    the sources at hand.  It maps "the delete side to a key list": the
    elements of the set, in iteration order. *)
Definition values (s : JsSet.t) : list Key :=
  JsSet.forEach (fun acc k => acc ++ [k]) s [].


(** ** Storage collaborator (vs/platform/storage/node/storageMainService) *)

(** A mutating call made on the storage service. *)
Inductive StorageCall : Type :=
| CallStore (k : Key) (v : Value)
| CallRemove (k : Key).

(** Modelled from the spec: the class [StorageMainService] is not part of
    the sources at hand.  The interface consumed is "get(key, fallback) ->
    value|fallback, store(key, value), remove(key), checkIntegrity(full)
    -> string", over a key/value mapping with "simple overwrite-by-key".
    [items] is the mapping read by [getItems]; [journal] lists the
    mutating calls received so far, oldest first; [report] is the
    diagnostic the integrity check of the engine yields. *)
Record StorageMainService : Type := mkStorage {
  items : JsMap.t Value;
  journal : list StorageCall;
  report : bool -> string
}.

Module Storage.
Definition get (key : Key) (fallbackValue : Value) (s : StorageMainService) : Value :=
  match JsMap.get key (items s) with
  | Some v => v
  | None => fallbackValue
  end.

Definition store (key : Key) (value : Value) (s : StorageMainService) : StorageMainService :=
  {| items := JsMap.set key value (items s);
     journal := journal s ++ [CallStore key value];
     report := report s |}.

Definition remove (key : Key) (s : StorageMainService) : StorageMainService :=
  {| items := JsMap.delete key (items s);
     journal := journal s ++ [CallRemove key];
     report := report s |}.

Definition checkIntegrity (full : bool) (s : StorageMainService) : string :=
  report s full.

Definition apply (c : StorageCall) (s : StorageMainService) : StorageMainService :=
  match c with
  | CallStore k v => store k v s
  | CallRemove k => remove k s
  end.
End Storage.

(** The raw per-key notification of [onDidChangeStorage]. *)
Record IStorageChangeEvent : Type := { key : Key }.

(** ** Debounce primitive (vs/base/common/event) *)

(** Modelled from the spec: [Event.debounce] is not part of the sources at
    hand.  It is the state machine "{ pending: sequence of raw events,
    timer: optional scheduled handle }" with the transitions arm, extend
    ("reset timer on each new event": "the flush fires duration after the
    last observed input") and flush ("on timer fire: snapshot+clear
    pending").  [output] is the accumulator handed to the merger, [handle]
    the instant at which the scheduled flush is due. *)
Module Debounce.
Record t (O : Type) : Type := mk {
  output : option O;
  handle : option nat
}.
Arguments mk {O} output handle.

Definition idle {O : Type} : t O := mk None None.

(** A source event [cur] observed at instant [now]. *)
Definition observe {I O : Type} (merger : option O -> I -> O) (delay now : nat)
  (cur : I) (d : t O) : t O :=
  mk (Some (merger (output d) cur)) (Some (now + delay)).

(** The timer at instant [now]: the flushed accumulator, if the flush is due. *)
Definition expire {O : Type} (now : nat) (d : t O) : option O * t O :=
  match handle d with
  | Some due => if Nat.leb due now then (output d, idle) else (None, d)
  | None => (None, d)
  end.
End Debounce.

(** ** Identity seed keys (vs/platform/telemetry/node/workbenchCommonProperties) *)

(** The four key constants are imported; they are taken as parameters. *)
Class WorkbenchCommonProperties : Type := {
  instanceStorageKey : Key;
  firstSessionDateStorageKey : Key;
  lastSessionDateStorageKey : Key;
  currentSessionDateStorageKey : Key
}.

(** An instance with four different keys. *)
Definition telemetryKeys : WorkbenchCommonProperties :=
  {| instanceStorageKey := "telemetry.instanceId";
     firstSessionDateStorageKey := "telemetry.firstSessionDate";
     lastSessionDateStorageKey := "telemetry.lastSessionDate";
     currentSessionDateStorageKey := "telemetry.currentSessionDate" |}.

(** What [initTelemetry] reads from its environment: the result of
    [generateUuid()] and of the two [new Date().toUTCString()]. *)
Record TelemetryEnv : Type := {
  uuid : string;
  firstSessionNow : string;
  currentSessionNow : string
}.

(** ** Wire types of the channel *)

Record ISerializableUpdateRequest : Type := {
  insert : option (list Item);
  delete : option (list Key)
}.

Record ISerializableItemsChangeEvent : Type := {
  changed : list Item   (* the field [items] *)
}.

(** The untyped [arg?: any] of [call], as far as the three commands
    distinguish it. *)
Inductive Arg : Type :=
| ArgUndefined
| ArgRequest (r : ISerializableUpdateRequest)
| ArgBoolean (b : bool).

Inductive Reply : Type :=
| ReplyItems (data : list Item)
| ReplyVoid
| ReplyString (s : string).

(** How the promise returned by a call settled. *)
Inductive Settled : Type :=
| Resolved (r : Reply)
| Rejected (msg : string).

(** A continuation chained on [whenReady] by [call]. *)
Inductive Reaction : Type :=
| RGetItems
| RUpdateItems (arg : Arg)
| RCheckIntegrity (arg : Arg).

(** The promise [whenReady]: pending with the reactions chained on it so
    far (oldest first), or fulfilled. *)
Inductive Promise : Type :=
| Pending (reactions : list (nat * Reaction))
| Fulfilled.

(** How [storageMainService.initialize()] settled. *)
Inductive InitOutcome : Type :=
| InitResolved
| InitRejected (error : string).

Inductive TraceEvent : Type :=
| TInitialized                 (* the continuation of [init] has run *)
| TExecuted (id : nat).        (* the body of the call [id] has run *)

(** ** Owner-side Gateway: [GlobalStorageDatabaseChannel] *)

(** The state of a channel object and of what it has done so far:
    [logService] and [unexpectedErrors] list the errors handed to
    [logService.error] and [onUnexpectedError]; [debouncer] is the
    debounced listener installed by [registerListeners] ([None] before);
    [onDidChangeItems] lists the events fired on the emitter and [settled]
    the outcomes of the promises returned by [call], both oldest first. *)
Record GlobalStorageDatabaseChannel : Type := mkChannel {
  storageMainService : StorageMainService;
  logService : list string;
  unexpectedErrors : list string;
  whenReady : Promise;
  debouncer : option (Debounce.t (list IStorageChangeEvent));
  clock : nat;
  onDidChangeItems : list ISerializableItemsChangeEvent;
  settled : list (nat * Settled);
  trace : list TraceEvent
}.

Definition STORAGE_CHANGE_DEBOUNCE_TIME : nat := 100.

Definition withStorage (s : StorageMainService) (c : GlobalStorageDatabaseChannel) :=
  mkChannel s (logService c) (unexpectedErrors c) (whenReady c) (debouncer c)
    (clock c) (onDidChangeItems c) (settled c) (trace c).

Definition withWhenReady (p : Promise) (c : GlobalStorageDatabaseChannel) :=
  mkChannel (storageMainService c) (logService c) (unexpectedErrors c) p (debouncer c)
    (clock c) (onDidChangeItems c) (settled c) (trace c).

Definition withDebouncer (d : option (Debounce.t (list IStorageChangeEvent)))
  (c : GlobalStorageDatabaseChannel) :=
  mkChannel (storageMainService c) (logService c) (unexpectedErrors c) (whenReady c) d
    (clock c) (onDidChangeItems c) (settled c) (trace c).

Definition withClock (n : nat) (c : GlobalStorageDatabaseChannel) :=
  mkChannel (storageMainService c) (logService c) (unexpectedErrors c) (whenReady c)
    (debouncer c) n (onDidChangeItems c) (settled c) (trace c).

(** [this._onDidChangeItems.fire(e)] *)
Definition fire (e : ISerializableItemsChangeEvent) (c : GlobalStorageDatabaseChannel) :=
  mkChannel (storageMainService c) (logService c) (unexpectedErrors c) (whenReady c)
    (debouncer c) (clock c) (onDidChangeItems c ++ [e]) (settled c) (trace c).

(** The rejection handler of [init]: [onUnexpectedError(error);
    this.logService.error(error)]. *)
Definition logError (error : string) (c : GlobalStorageDatabaseChannel) :=
  mkChannel (storageMainService c) (logService c ++ [error]) (unexpectedErrors c ++ [error])
    (whenReady c) (debouncer c) (clock c) (onDidChangeItems c) (settled c) (trace c).

Definition settle (id : nat) (o : Settled) (c : GlobalStorageDatabaseChannel) :=
  mkChannel (storageMainService c) (logService c) (unexpectedErrors c) (whenReady c)
    (debouncer c) (clock c) (onDidChangeItems c) (settled c ++ [(id, o)])
    (trace c ++ [TExecuted id]).

Definition markInitialized (c : GlobalStorageDatabaseChannel) :=
  mkChannel (storageMainService c) (logService c) (unexpectedErrors c) Fulfilled
    (debouncer c) (clock c) (onDidChangeItems c) (settled c) (trace c ++ [TInitialized]).

(** The constructor: [this.whenReady = this.init()] leaves the promise
    pending until [storageMainService.initialize()] settles. *)
Definition construct (storage : StorageMainService) : GlobalStorageDatabaseChannel :=
  mkChannel storage [] [] (Pending []) None 0 [] [] [].

Section Gateway.
Context {properties : WorkbenchCommonProperties}.

Definition initTelemetry (env : TelemetryEnv) (s : StorageMainService) : StorageMainService :=
  let instanceId := Storage.get instanceStorageKey VUndefined s in
  let s1 :=
    if isUndefined instanceId
    then Storage.store instanceStorageKey (VString (uuid env)) s
    else s in
  let firstSessionDate := Storage.get firstSessionDateStorageKey VUndefined s1 in
  let s2 :=
    if isUndefined firstSessionDate
    then Storage.store firstSessionDateStorageKey (VString (firstSessionNow env)) s1
    else s1 in
  let lastSessionDate := Storage.get currentSessionDateStorageKey VUndefined s2 in
  let currentSessionDate := VString (currentSessionNow env) in
  let s3 :=
    Storage.store lastSessionDateStorageKey
      (if isUndefined lastSessionDate then VNull else lastSessionDate) s2 in
  Storage.store currentSessionDateStorageKey currentSessionDate s3.

(** The merger handed to [Event.debounce]. *)
Definition merger (prev : option (list IStorageChangeEvent)) (cur : IStorageChangeEvent)
  : list IStorageChangeEvent :=
  match prev with
  | None => [cur]
  | Some p => p ++ [cur]
  end.

Definition registerListeners (c : GlobalStorageDatabaseChannel) : GlobalStorageDatabaseChannel :=
  withDebouncer (Some Debounce.idle) c.

Definition serializeEvents (events : list IStorageChangeEvent) (s : StorageMainService)
  : ISerializableItemsChangeEvent :=
  let items :=
    fold_left (fun items event => JsMap.set (key event) (Storage.get (key event) VUndefined s) items)
      events JsMap.empty in
  {| changed := mapToSerializable items |}.

(** The listener on the debounced event. *)
Definition onDebounced (events : list IStorageChangeEvent) (c : GlobalStorageDatabaseChannel)
  : GlobalStorageDatabaseChannel :=
  if Nat.eqb (length events) 0 then c
  else fire (serializeEvents events (storageMainService c)) c.

(** [init]: the rejection handler, then the continuation. *)
Definition init (outcome : InitOutcome) (env : TelemetryEnv) (c : GlobalStorageDatabaseChannel)
  : GlobalStorageDatabaseChannel :=
  let c1 :=
    match outcome with
    | InitResolved => c
    | InitRejected error => logError error c
    end in
  let c2 := withStorage (initTelemetry env (storageMainService c1)) c1 in
  registerListeners c2.

(** The body of [updateItems] on a request. *)
Definition applyUpdate (items : ISerializableUpdateRequest) (s : StorageMainService)
  : StorageMainService :=
  let s1 :=
    match insert items with
    | Some l => fold_left (fun s kv => Storage.store (fst kv) (snd kv) s) l s
    | None => s
    end in
  match delete items with
  | Some l => fold_left (fun s key => Storage.remove key s) l s1
  | None => s1
  end.

(** The boolean the storage service takes [arg] for. *)
Definition argFull (arg : Arg) : bool :=
  match arg with
  | ArgBoolean b => b
  | ArgRequest _ => true
  | ArgUndefined => false
  end.

(** The callbacks passed to [this.whenReady.then] by [call]. *)
Definition body (r : Reaction) (s : StorageMainService) : StorageMainService * Settled :=
  match r with
  | RGetItems => (s, Resolved (ReplyItems (mapToSerializable (items s))))
  | RUpdateItems arg =>
      match arg with
      | ArgRequest items => (applyUpdate items s, Resolved ReplyVoid)
      | ArgBoolean _ => (s, Resolved ReplyVoid)
      | ArgUndefined => (s, Rejected "TypeError")
      end
  | RCheckIntegrity arg =>
      (s, Resolved (ReplyString (Storage.checkIntegrity (argFull arg) s)))
  end.

Definition execute (c : GlobalStorageDatabaseChannel) (job : nat * Reaction)
  : GlobalStorageDatabaseChannel :=
  let (s, o) := body (snd job) (storageMainService c) in
  settle (fst job) o (withStorage s c).

(** [this.whenReady.then(reaction)] *)
Definition thenReady (id : nat) (r : Reaction) (c : GlobalStorageDatabaseChannel)
  : GlobalStorageDatabaseChannel :=
  match whenReady c with
  | Pending reactions => withWhenReady (Pending (reactions ++ [(id, r)])) c
  | Fulfilled => execute c (id, r)
  end.

Definition call (id : nat) (command : string) (arg : Arg) (c : GlobalStorageDatabaseChannel)
  : result GlobalStorageDatabaseChannel :=
  if String.eqb command "getItems" then Ok (thenReady id RGetItems c)
  else if String.eqb command "updateItems" then Ok (thenReady id (RUpdateItems arg) c)
  else if String.eqb command "checkIntegrity" then Ok (thenReady id (RCheckIntegrity arg) c)
  else Throw (String.append "Call not found: " command).

Definition listen (event : string) (c : GlobalStorageDatabaseChannel)
  : result (list ISerializableItemsChangeEvent) :=
  if String.eqb event "onDidChangeItems" then Ok (onDidChangeItems c)
  else Throw (String.append "Event not found: " event).

(** ** The event loop of the owner process *)

Inductive Input : Type :=
| InCall (id : nat) (command : string) (arg : Arg)
| InInitialized (outcome : InitOutcome) (env : TelemetryEnv)
| InStorageChanged (e : IStorageChangeEvent)
| InStorage (op : StorageCall)
| InElapse (dt : nat).

(** [storageMainService.initialize()] settles: [init] runs, [whenReady]
    is fulfilled and the reactions chained on it run in order. *)
Definition initialized (outcome : InitOutcome) (env : TelemetryEnv)
  (c : GlobalStorageDatabaseChannel) : GlobalStorageDatabaseChannel :=
  match whenReady c with
  | Pending reactions => fold_left execute reactions (markInitialized (init outcome env c))
  | Fulfilled => c
  end.

(** [onDidChangeStorage] fires: the debounced listener, once installed,
    merges the event and restarts the timer. *)
Definition storageChanged (e : IStorageChangeEvent) (c : GlobalStorageDatabaseChannel)
  : GlobalStorageDatabaseChannel :=
  match debouncer c with
  | Some d =>
      withDebouncer
        (Some (Debounce.observe merger STORAGE_CHANGE_DEBOUNCE_TIME (clock c) e d)) c
  | None => c
  end.

(** Time passes; a flush that has become due runs. *)
Definition elapse (dt : nat) (c : GlobalStorageDatabaseChannel) : GlobalStorageDatabaseChannel :=
  let c1 := withClock (clock c + dt) c in
  match debouncer c1 with
  | Some d =>
      match Debounce.expire (clock c1) d with
      | (Some events, d') => onDebounced events (withDebouncer (Some d') c1)
      | (None, d') => withDebouncer (Some d') c1
      end
  | None => c1
  end.

Definition step (c : GlobalStorageDatabaseChannel) (i : Input) : GlobalStorageDatabaseChannel :=
  match i with
  | InCall id command arg =>
      match call id command arg c with
      | Ok c' => c'
      | Throw _ => c
      end
  | InInitialized outcome env => initialized outcome env c
  | InStorageChanged e => storageChanged e c
  | InStorage op => withStorage (Storage.apply op (storageMainService c)) c
  | InElapse dt => elapse dt c
  end.

Definition run (inputs : list Input) (c : GlobalStorageDatabaseChannel)
  : GlobalStorageDatabaseChannel :=
  fold_left step inputs c.

End Gateway.

(** ** Client-side Proxy: [GlobalStorageDatabaseChannelClient] *)

(** [IUpdateRequest] of vs/base/node/storage: [{ insert?: Map<string,
    string>; delete?: Set<string> }]. *)
Record IUpdateRequest : Type := {
  request_insert : option (JsMap.t Value);
  request_delete : option JsSet.t
}.

Inductive RemoteCall : Type :=
| ChannelCall (command : string) (arg : Arg).

(** The handle returned by subscribing to a channel event. *)
Record IDisposable : Type := { listener : nat }.

(** Modelled from the spec: the transport [IChannel] is not part of the
    sources at hand.  It provides "named event subscriptions" as "an
    explicit subscriber registry plus an owned subscription handle
    returned on subscribe", and "unsubscribing from the remote event must
    be idempotent".  [calls] lists the remote calls issued, oldest first;
    [listeners] the registered listeners of [onDidChangeItems]. *)
Record IChannel : Type := {
  calls : list RemoteCall;
  listeners : list nat
}.

Module Channel.
Definition call (command : string) (arg : Arg) (ch : IChannel) : IChannel :=
  {| calls := calls ch ++ [ChannelCall command arg]; listeners := listeners ch |}.

Definition listen (ch : IChannel) : IDisposable * IChannel :=
  let id := S (list_max (listeners ch)) in
  ({| listener := id |}, {| calls := calls ch; listeners := listeners ch ++ [id] |}).

Definition unlisten (d : IDisposable) (ch : IChannel) : IChannel :=
  {| calls := calls ch;
     listeners := filter (fun id => negb (Nat.eqb id (listener d))) (listeners ch) |}.

Definition registered (d : IDisposable) (ch : IChannel) : bool :=
  existsb (Nat.eqb (listener d)) (listeners ch).
End Channel.

(** Modelled from the spec: [dispose] of vs/base/common/lifecycle is not
    part of the sources at hand.  It releases the handle it is given, if
    any, and hands it back (its result is stored in a field of type
    [IDisposable]). *)
Definition dispose (d : option IDisposable) (ch : IChannel) : option IDisposable * IChannel :=
  match d with
  | Some h => (Some h, Channel.unlisten h ch)
  | None => (None, ch)
  end.

(** The promise a Proxy operation returns: resolved on the spot, or the
    promise of the remote call at the given position of [calls]. *)
Inductive ClientPromise : Type :=
| PromiseResolved
| PromiseOfCall (index : nat).

(** A value that is not an array. *)
Inductive NonArray : Type :=
| NUndefined
| NNull
| NBoolean (b : bool)
| NNumber (n : nat)
| NString (s : string)
| NObject.

(** The [items] field of an incoming payload. *)
Inductive Wire : Type :=
| WArray (l : list Item)
| WOther (v : NonArray).

Definition Array_isArray (w : Wire) : bool :=
  match w with
  | WArray _ => true
  | WOther _ => false
  end.

(** An incoming event payload [e]: an object with an [items] field, or
    [undefined]. *)
Inductive Payload : Type :=
| PUndefined
| PObject (items : Wire).

(** [isDisposed] records [super.dispose()]; [onDidChangeItemsExternal]
    lists the mappings fired on the local emitter, oldest first. *)
Record GlobalStorageDatabaseChannelClient : Type := mkClient {
  channel : IChannel;
  onDidChangeItemsOnMainListener : option IDisposable;
  isDisposed : bool;
  onDidChangeItemsExternal : list (JsMap.t Value)
}.

Module Client.
(** The constructor: [registerListeners] subscribes to [onDidChangeItems]. *)
Definition construct (ch : IChannel) : GlobalStorageDatabaseChannelClient :=
  let (d, ch') := Channel.listen ch in
  mkClient ch' (Some d) false [].

Definition onDidChangeItemsOnMain (e : Payload) (c : GlobalStorageDatabaseChannelClient)
  : result GlobalStorageDatabaseChannelClient :=
  match e with
  | PUndefined => Throw "TypeError"
  | PObject items =>
      match items with
      | WArray l =>
          Ok (mkClient (channel c) (onDidChangeItemsOnMainListener c) (isDisposed c)
                (onDidChangeItemsExternal c ++ [serializableToMap l]))
      | WOther _ => Ok c
      end
  end.

(** The channel emits [e]: the listener runs if it is still registered. *)
Definition deliver (e : Payload) (c : GlobalStorageDatabaseChannelClient)
  : result GlobalStorageDatabaseChannelClient :=
  match onDidChangeItemsOnMainListener c with
  | Some d =>
      if Channel.registered d (channel c) then onDidChangeItemsOnMain e c else Ok c
  | None => Ok c
  end.

Definition getItems (c : GlobalStorageDatabaseChannelClient)
  : GlobalStorageDatabaseChannelClient * ClientPromise :=
  (mkClient (Channel.call "getItems" ArgUndefined (channel c))
     (onDidChangeItemsOnMainListener c) (isDisposed c) (onDidChangeItemsExternal c),
   PromiseOfCall (length (calls (channel c)))).

(** The continuation of [getItems] on the reply. *)
Definition getItemsThen (data : list Item) : JsMap.t Value := serializableToMap data.

Definition updateItems (request : IUpdateRequest) (c : GlobalStorageDatabaseChannelClient)
  : GlobalStorageDatabaseChannelClient * ClientPromise :=
  let updateCount := 0 in
  let '(serializableInsert, updateCount) :=
    match request_insert request with
    | Some m => (Some (mapToSerializable m), updateCount + JsMap.size m)
    | None => (None, updateCount)
    end in
  let '(serializableDelete, updateCount) :=
    match request_delete request with
    | Some s => (Some (values s), updateCount + JsSet.size s)
    | None => (None, updateCount)
    end in
  if Nat.eqb updateCount 0 then (c, PromiseResolved)
  else
    let serializableRequest := {| insert := serializableInsert; delete := serializableDelete |} in
    (mkClient (Channel.call "updateItems" (ArgRequest serializableRequest) (channel c))
       (onDidChangeItemsOnMainListener c) (isDisposed c) (onDidChangeItemsExternal c),
     PromiseOfCall (length (calls (channel c)))).

Definition checkIntegrity (full : bool) (c : GlobalStorageDatabaseChannelClient)
  : GlobalStorageDatabaseChannelClient * ClientPromise :=
  (mkClient (Channel.call "checkIntegrity" (ArgBoolean full) (channel c))
     (onDidChangeItemsOnMainListener c) (isDisposed c) (onDidChangeItemsExternal c),
   PromiseOfCall (length (calls (channel c)))).

Definition close (c : GlobalStorageDatabaseChannelClient)
  : GlobalStorageDatabaseChannelClient * ClientPromise :=
  let (d, ch) := dispose (onDidChangeItemsOnMainListener c) (channel c) in
  (mkClient ch d (isDisposed c) (onDidChangeItemsExternal c), PromiseResolved).

Definition dispose (c : GlobalStorageDatabaseChannelClient)
  : GlobalStorageDatabaseChannelClient :=
  let (d, ch) := dispose (onDidChangeItemsOnMainListener c) (channel c) in
  mkClient ch d true (onDidChangeItemsExternal c).

(** The lifecycle operations of a Proxy. *)
Inductive Teardown : Type :=
| Close
| Dispose.

Definition teardown (c : GlobalStorageDatabaseChannelClient) (op : Teardown)
  : GlobalStorageDatabaseChannelClient :=
  match op with
  | Close => fst (close c)
  | Dispose => dispose c
  end.
End Client.

(** ** Observing the storage journal *)

(** The calls the storage service received between two of its states. *)
Definition journalSince (before after : StorageMainService) : list StorageCall :=
  skipn (length (journal before)) (journal after).

(** Whether a call stores or removes the key. *)
Definition touches (k : Key) (c : StorageCall) : bool :=
  match c with
  | CallStore k' _ => String.eqb k k'
  | CallRemove k' => String.eqb k k'
  end.

(** The two parts of a request, empty when absent. *)
Definition inserted (r : ISerializableUpdateRequest) : list Item :=
  match insert r with Some l => l | None => [] end.

Definition deleted (r : ISerializableUpdateRequest) : list Key :=
  match delete r with Some l => l | None => [] end.

(** ** Bursts of storage changes

    One change of a burst: [gap] time units after the previous input the
    owner process makes the calls [writes] on the storage service, which
    then signals that [changedKey] changed. *)
Record Change : Type := {
  gap : nat;
  writes : list StorageCall;
  changedKey : Key
}.

Definition changeInputs (ch : Change) : list Input :=
  InElapse (gap ch) :: map InStorage (writes ch)
  ++ [InStorageChanged {| key := changedKey ch |}].

Definition burstInputs (b : list Change) : list Input := flat_map changeInputs b.

(** The step of the loop of [serializeEvents], over what [get] reads. *)
Definition collectWith (read : Key -> Value) (items : JsMap.t Value)
  (event : IStorageChangeEvent) : JsMap.t Value :=
  JsMap.set (key event) (read (key event)) items.

Definition changeEvents (b : list Change) : list IStorageChangeEvent :=
  map (fun ch => {| key := changedKey ch |}) b.

Definition burstWrites (b : list Change) : list StorageCall :=
  flat_map writes b.

(** The debounced listener is installed and holds the batch [acc], its
    flush being due one quiet period from now (nothing is scheduled for an
    empty batch). *)
Definition armed (acc : list IStorageChangeEvent) (c : GlobalStorageDatabaseChannel) : Prop :=
  (acc = [] /\ debouncer c = Some Debounce.idle) \/
  (acc <> [] /\
   debouncer c
   = Some (Debounce.mk (Some acc) (Some (clock c + STORAGE_CHANGE_DEBOUNCE_TIME)))).

(** ** Ordering against initialization *)

(** In a trace, every execution of the body of a call comes after the
    completion of the continuation of [init]. *)
Definition gated (t : list TraceEvent) : Prop :=
  forall before id after,
    t = before ++ TExecuted id :: after -> In TInitialized before.

(** A request whose insert and delete parts are both absent or empty. *)
Definition emptyRequest (request : IUpdateRequest) : Prop :=
  (request_insert request = None \/ request_insert request = Some JsMap.empty) /\
  (request_delete request = None \/ request_delete request = Some []).

(** The request the Proxy puts on the wire. *)
Definition serializableRequest (request : IUpdateRequest) : ISerializableUpdateRequest :=
  {| insert := option_map mapToSerializable (request_insert request);
     delete := option_map values (request_delete request) |}.

(** The trace of a channel that is still initializing is empty; the trace
    of a ready one starts with the completion of [init], followed by
    executions only. *)
Definition shaped (c : GlobalStorageDatabaseChannel) : Prop :=
  (exists q, whenReady c = Pending q /\ trace c = []) \/
  (whenReady c = Fulfilled /\ exists ids, trace c = TInitialized :: map TExecuted ids).

(** The command name and argument under which [call] chains a reaction. *)
Definition commandOf (r : Reaction) : string :=
  match r with
  | RGetItems => "getItems"
  | RUpdateItems _ => "updateItems"
  | RCheckIntegrity _ => "checkIntegrity"
  end.

Definition argOf (r : Reaction) : Arg :=
  match r with
  | RGetItems => ArgUndefined
  | RUpdateItems arg => arg
  | RCheckIntegrity arg => arg
  end.

(** The remote calls that issue the given jobs, in order. *)
Definition issue (jobs : list (nat * Reaction)) : list Input :=
  map (fun job => InCall (fst job) (commandOf (snd job)) (argOf (snd job))) jobs.

(** An event fired by the Gateway, as the Proxy's listener receives it. *)
Definition transmit (e : ISerializableItemsChangeEvent) : Payload :=
  PObject (WArray (changed e)).

(** ** Observations of a run of the owner process *)

(** The reactions [whenReady] still holds back. *)
Definition pendingJobs (p : Promise) : list (nat * Reaction) :=
  match p with
  | Pending reactions => reactions
  | Fulfilled => []
  end.

(** The command names [call] has a case for. *)
Definition commands : list string := ["getItems"; "updateItems"; "checkIntegrity"].

(** The ids of the calls of an input sequence that name such a command,
    in the order of issue. *)
Definition acceptedIds (inputs : list Input) : list nat :=
  flat_map (fun i =>
              match i with
              | InCall id command _ =>
                  if existsb (String.eqb command) commands then [id] else []
              | _ => []
              end) inputs.

(** The keys signalled by the raw events of an input sequence. *)
Definition rawKeys (inputs : list Input) : list Key :=
  flat_map (fun i =>
              match i with
              | InStorageChanged e => [key e]
              | _ => []
              end) inputs.

Definition isInitialized (i : Input) : bool :=
  match i with
  | InInitialized _ _ => true
  | _ => false
  end.


Definition heldKeys (c : GlobalStorageDatabaseChannel) : list Key :=
  match debouncer c with
  | Some d =>
      match Debounce.output d with
      | Some events => map key events
      | None => []
      end
  | None => []
  end.

(** The ids of the calls a channel has settled, followed by those it
    holds back. *)
Definition callIds (c : GlobalStorageDatabaseChannel) : list nat :=
  map fst (settled c) ++ map fst (pendingJobs (whenReady c)).

(** An event worth sending: it has items, with pairwise different keys. *)
Definition goodEvent (e : ISerializableItemsChangeEvent) : Prop :=
  changed e <> [] /\ NoDup (map fst (changed e)).

(** Whether the debounced listener holds a batch. *)
Definition backlog (c : GlobalStorageDatabaseChannel) : nat :=
  match debouncer c with
  | Some d =>
      match Debounce.output d with
      | Some _ => 1
      | None => 0
      end
  | None => 0
  end.

(** The state a channel keeps between two inputs: the fired events are
    worth sending; the debounced listener exists exactly once [whenReady]
    is fulfilled; it either holds nothing and has no flush scheduled, or
    holds a non-empty batch whose flush is due within one quiet period. *)
Definition sane (c : GlobalStorageDatabaseChannel) : Prop :=
  Forall goodEvent (onDidChangeItems c) /\
  match debouncer c with
  | None => onDidChangeItems c = [] /\ whenReady c <> Fulfilled
  | Some d =>
      whenReady c = Fulfilled /\
      (d = Debounce.idle \/
       exists events due,
         events <> [] /\ d = Debounce.mk (Some events) (Some due) /\
         due <= clock c + STORAGE_CHANGE_DEBOUNCE_TIME)
  end.


(** Inputs that ask for no write: a call of a command other than
    [updateItems], a raw change event, the passing of time. *)
Definition asksNoWrite (i : Input) : bool :=
  match i with
  | InCall _ command _ => negb (String.eqb command "updateItems")
  | InStorageChanged _ => true
  | InElapse _ => true
  | InInitialized _ _ => false
  | InStorage _ => false
  end.

(** The keys of a list in the order of their first occurrence. *)
Fixpoint firstOccurrences (l : list Key) : list Key :=
  match l with
  | [] => []
  | k :: rest => k :: filter (fun k' => negb (String.eqb k' k)) (firstOccurrences rest)
  end.

(** ** Operations on a Proxy *)

Inductive ProxyOp : Type :=
| OpGetItems
| OpUpdateItems (request : IUpdateRequest)
| OpCheckIntegrity (full : bool)
| OpClose
| OpDispose.

Definition perform (c : GlobalStorageDatabaseChannelClient) (op : ProxyOp)
  : GlobalStorageDatabaseChannelClient :=
  match op with
  | OpGetItems => fst (Client.getItems c)
  | OpUpdateItems request => fst (Client.updateItems request c)
  | OpCheckIntegrity full => fst (Client.checkIntegrity full c)
  | OpClose => fst (Client.close c)
  | OpDispose => Client.dispose c
  end.


(** The two parts of a Proxy-side request, empty when absent. *)
Definition requestedInserts (request : IUpdateRequest) : JsMap.t Value :=
  match request_insert request with Some m => m | None => JsMap.empty end.

Definition requestedDeletes (request : IUpdateRequest) : list Key :=
  match request_delete request with Some s => s | None => [] end.

(** The four identity seed keys. *)
Definition seedKeys {properties : WorkbenchCommonProperties} : list Key :=
  [instanceStorageKey; firstSessionDateStorageKey;
   lastSessionDateStorageKey; currentSessionDateStorageKey].

(** What happens to a Proxy: its owner performs an operation, or the
    channel emits a payload. *)
Inductive ProxyInput : Type :=
| PerformOp (op : ProxyOp)
| Emit (e : Payload).

Definition receive (c : GlobalStorageDatabaseChannelClient) (i : ProxyInput)
  : result GlobalStorageDatabaseChannelClient :=
  match i with
  | PerformOp op => Ok (perform c op)
  | Emit e => Client.deliver e c
  end.

(** A sequence of such inputs, up to the first exception. *)
Fixpoint receiveAll (inputs : list ProxyInput) (c : GlobalStorageDatabaseChannelClient)
  : result GlobalStorageDatabaseChannelClient :=
  match inputs with
  | [] => Ok c
  | i :: rest =>
      match receive c i with
      | Ok c' => receiveAll rest c'
      | Throw msg => Throw msg
      end
  end.

(** The Proxy's listener is not registered on the channel. *)
Definition unsubscribed (c : GlobalStorageDatabaseChannelClient) : Prop :=
  match onDidChangeItemsOnMainListener c with
  | Some d => Channel.registered d (channel c) = false
  | None => True
  end.

(** The mappings a run of payload objects decodes to: one per array. *)
Definition decodedArrays (payloads : list Wire) : list (JsMap.t Value) :=
  flat_map (fun w =>
              match w with
              | WArray l => [serializableToMap l]
              | WOther _ => []
              end) payloads.

(** * Properties *)

(** ** Maps *)

Module JsMapFacts.
Section WithValues.
Variable V : Type.
Implicit Types (m : JsMap.t V) (k : Key) (v : V).

Lemma get_set_same k v m : JsMap.get k (JsMap.set k v m) = Some v.
Proof.
  induction m as [|[k' v'] rest IH]; simpl.
  - now rewrite String.eqb_refl.
  - destruct (String.eqb k k') eqn:E; simpl; rewrite E; auto.
Qed.

Lemma get_set_other k k' v m :
  k <> k' -> JsMap.get k' (JsMap.set k v m) = JsMap.get k' m.
Proof.
  intros Hne. induction m as [|[k0 v0] rest IH]; simpl.
  - destruct (String.eqb_spec k' k); congruence.
  - destruct (String.eqb_spec k k0) as [->|Hk]; simpl.
    + destruct (String.eqb_spec k' k0); congruence.
    + now rewrite IH.
Qed.

Lemma get_delete_same k m : JsMap.get k (JsMap.delete k m) = None.
Proof.
  induction m as [|[k' v'] rest IH]; simpl; auto.
  destruct (String.eqb k k') eqn:E; simpl; rewrite ?E; auto.
Qed.

Lemma get_delete_other k k' m :
  k <> k' -> JsMap.get k' (JsMap.delete k m) = JsMap.get k' m.
Proof.
  intros Hne. induction m as [|[k0 v0] rest IH]; simpl; auto.
  destruct (String.eqb_spec k k0) as [->|Hk]; simpl.
  - destruct (String.eqb_spec k' k0); congruence.
  - now rewrite IH.
Qed.

Lemma get_None_keys k m : JsMap.get k m = None <-> ~ In k (JsMap.keys m).
Proof.
  induction m as [|[k' v'] rest IH]; simpl.
  - tauto.
  - destruct (String.eqb_spec k k') as [->|Hk].
    + split; [discriminate | tauto].
    + rewrite IH. split; [intros H [E|I]; congruence | tauto].
Qed.

Lemma keys_delete k m : ~ In k (JsMap.keys (JsMap.delete k m)).
Proof. apply get_None_keys, get_delete_same. Qed.

Lemma set_fresh k v m : ~ In k (JsMap.keys m) -> JsMap.set k v m = m ++ [(k, v)].
Proof.
  induction m as [|[k' v'] rest IH]; simpl; intros Hk; auto.
  destruct (String.eqb_spec k k') as [->|Hne]; [tauto|].
  rewrite IH; tauto.
Qed.

Lemma keys_set k v m k' :
  In k' (JsMap.keys (JsMap.set k v m)) <-> k' = k \/ In k' (JsMap.keys m).
Proof.
  induction m as [|[k0 v0] rest IH]; simpl.
  - intuition congruence.
  - destruct (String.eqb_spec k k0) as [->|Hne]; simpl.
    + intuition congruence.
    + rewrite IH. tauto.
Qed.

Lemma wf_set k v m : JsMap.wf m -> JsMap.wf (JsMap.set k v m).
Proof.
  unfold JsMap.wf. induction m as [|[k0 v0] rest IH]; simpl; intros Hwf.
  - constructor; [tauto | constructor].
  - inversion Hwf as [|? ? Hnin Hrest]; subst.
    destruct (String.eqb_spec k k0) as [->|Hne]; simpl.
    + now constructor.
    + constructor; [|now apply IH].
      intros Hin. apply keys_set in Hin. destruct Hin; [congruence | tauto].
Qed.

Lemma forEach_push (m : JsMap.t V) (acc : list (Key * V)) :
  JsMap.forEach (fun a k v => a ++ [(k, v)]) m acc = acc ++ m.
Proof.
  unfold JsMap.forEach. revert acc.
  induction m as [|[k v] rest IH]; intros acc; simpl.
  - now rewrite app_nil_r.
  - rewrite IH, <- app_assoc. reflexivity.
Qed.

Lemma fold_set_fresh (l : list (Key * V)) (acc : JsMap.t V) :
  NoDup (JsMap.keys (acc ++ l)) ->
  fold_left (fun items kv => JsMap.set (fst kv) (snd kv) items) l acc = acc ++ l.
Proof.
  revert acc. induction l as [|[k v] rest IH]; intros acc Hnd; simpl.
  - now rewrite app_nil_r.
  - assert (Hk : ~ In k (JsMap.keys acc)).
    { unfold JsMap.keys in *. rewrite map_app in Hnd. simpl in Hnd.
      apply NoDup_remove_2 in Hnd. intros Hin. apply Hnd, in_or_app. now left. }
    rewrite set_fresh by exact Hk.
    replace (acc ++ (k, v) :: rest) with ((acc ++ [(k, v)]) ++ rest)
      by (rewrite <- app_assoc; reflexivity).
    apply IH. rewrite <- app_assoc. exact Hnd.
Qed.
End WithValues.
End JsMapFacts.

(** ** Codec *)

Lemma mapToSerializable_entries (m : JsMap.t Value) : mapToSerializable m = m.
Proof. unfold mapToSerializable. now rewrite JsMapFacts.forEach_push. Qed.

Lemma values_elements (s : JsSet.t) : values s = s.
Proof.
  unfold values, JsSet.forEach.
  enough (H : forall acc, fold_left (fun a k => a ++ [k]) s acc = acc ++ s) by apply H.
  induction s as [|k rest IH]; intros acc; simpl.
  - now rewrite app_nil_r.
  - rewrite IH, <- app_assoc. reflexivity.
Qed.

Lemma serializableToMap_wf (l : list Item) : JsMap.wf (serializableToMap l).
Proof.
  unfold serializableToMap.
  enough (H : forall acc : JsMap.t Value, JsMap.wf acc ->
            JsMap.wf (fold_left (fun items kv => JsMap.set (fst kv) (snd kv) items) l acc)).
  { apply H. constructor. }
  induction l as [|[k v] rest IH]; intros acc Hacc; simpl; auto.
  apply IH. now apply JsMapFacts.wf_set.
Qed.

(** C2: for every mapping [m] with pairwise different keys, decoding the
    encoded item sequence gives [m] back; through this codec the reply of
    the Gateway's [getItems] reaches the Proxy, whose [getItems] therefore
    yields the mapping held by the storage service. *)
Theorem codec_roundtrip (m : JsMap.t Value) :
  JsMap.wf m ->
  serializableToMap (mapToSerializable m) = m /\
  (forall s : StorageMainService, items s = m ->
     snd (body RGetItems s) = Resolved (ReplyItems (mapToSerializable m)) /\
     Client.getItemsThen (mapToSerializable m) = items s).
Proof.
  intros Hwf.
  assert (Hrt : serializableToMap (mapToSerializable m) = m).
  { rewrite mapToSerializable_entries. unfold serializableToMap.
    now rewrite JsMapFacts.fold_set_fresh. }
  split; [exact Hrt|].
  intros s Hs. split.
  - simpl. now rewrite Hs.
  - unfold Client.getItemsThen. now rewrite Hs.
Qed.

Lemma codec_roundtrip_witness :
  JsMap.wf [("a", VString "1"); ("b", VNull)] /\
  serializableToMap (mapToSerializable [("a", VString "1"); ("b", VNull)])
  = [("a", VString "1"); ("b", VNull)].
Proof.
  assert (Hwf : JsMap.wf [("a", VString "1"); ("b", VNull)]).
  { unfold JsMap.wf. simpl. repeat constructor; simpl; intuition discriminate. }
  split; [exact Hwf|].
  exact (proj1 (codec_roundtrip Hwf)).
Defined.

(** ** Storage service *)

Module StorageFacts.
Lemma get_store_same k v d s : Storage.get k d (Storage.store k v s) = v.
Proof. unfold Storage.get, Storage.store. simpl. now rewrite JsMapFacts.get_set_same. Qed.

Lemma get_store_other k k' v d s :
  k <> k' -> Storage.get k' d (Storage.store k v s) = Storage.get k' d s.
Proof.
  intros Hne. unfold Storage.get, Storage.store. simpl.
  now rewrite JsMapFacts.get_set_other.
Qed.

Lemma get_remove_same k d s : Storage.get k d (Storage.remove k s) = d.
Proof. unfold Storage.get, Storage.remove. simpl. now rewrite JsMapFacts.get_delete_same. Qed.

Lemma get_remove_other k k' d s :
  k <> k' -> Storage.get k' d (Storage.remove k s) = Storage.get k' d s.
Proof.
  intros Hne. unfold Storage.get, Storage.remove. simpl.
  now rewrite JsMapFacts.get_delete_other.
Qed.

Lemma journalSince_app s s' (l : list StorageCall) :
  journal s' = journal s ++ l -> journalSince s s' = l.
Proof.
  intros H. unfold journalSince. rewrite H, skipn_app, skipn_all, Nat.sub_diag.
  reflexivity.
Qed.
End StorageFacts.

(** ** Identity seeding *)

Section Seeding.
Context {properties : WorkbenchCommonProperties}.
Hypothesis distinct :
  NoDup [instanceStorageKey; firstSessionDateStorageKey;
         lastSessionDateStorageKey; currentSessionDateStorageKey].

Lemma seed_keys_differ :
  instanceStorageKey <> firstSessionDateStorageKey /\
  instanceStorageKey <> lastSessionDateStorageKey /\
  instanceStorageKey <> currentSessionDateStorageKey /\
  firstSessionDateStorageKey <> lastSessionDateStorageKey /\
  firstSessionDateStorageKey <> currentSessionDateStorageKey /\
  lastSessionDateStorageKey <> currentSessionDateStorageKey.
Proof.
  inversion distinct as [|? ? H1 D1]; subst.
  inversion D1 as [|? ? H2 D2]; subst.
  inversion D2 as [|? ? H3 _]; subst.
  simpl in *. repeat split; intros E; rewrite E in *; tauto.
Qed.

(** The calls [initTelemetry] makes on the storage service, in order. *)
Lemma initTelemetry_journal (env : TelemetryEnv) (s : StorageMainService) :
  let previous := Storage.get currentSessionDateStorageKey VUndefined s in
  journal (initTelemetry env s) =
  journal s
  ++ (if isUndefined (Storage.get instanceStorageKey VUndefined s)
      then [CallStore instanceStorageKey (VString (uuid env))] else [])
  ++ (if isUndefined (Storage.get firstSessionDateStorageKey VUndefined s)
      then [CallStore firstSessionDateStorageKey (VString (firstSessionNow env))] else [])
  ++ [CallStore lastSessionDateStorageKey (if isUndefined previous then VNull else previous);
      CallStore currentSessionDateStorageKey (VString (currentSessionNow env))].
Proof.
  destruct seed_keys_differ as (Hif & Hil & Hic & Hfl & Hfc & Hlc).
  unfold initTelemetry.
  destruct (isUndefined (Storage.get instanceStorageKey VUndefined s)) eqn:Ei.
  - rewrite (StorageFacts.get_store_other _ _ _ Hif).
    destruct (isUndefined (Storage.get firstSessionDateStorageKey VUndefined s)) eqn:Ef.
    + rewrite (StorageFacts.get_store_other _ _ _ Hfc), (StorageFacts.get_store_other _ _ _ Hic).
      simpl. rewrite <- !app_assoc. reflexivity.
    + rewrite (StorageFacts.get_store_other _ _ _ Hic).
      simpl. rewrite <- !app_assoc. reflexivity.
  - destruct (isUndefined (Storage.get firstSessionDateStorageKey VUndefined s)) eqn:Ef.
    + rewrite (StorageFacts.get_store_other _ _ _ Hfc).
      simpl. rewrite <- !app_assoc. reflexivity.
    + simpl. rewrite <- !app_assoc. reflexivity.
Qed.

Lemma initTelemetry_keeps (env : TelemetryEnv) (s : StorageMainService) (k : Key) :
  k <> lastSessionDateStorageKey -> k <> currentSessionDateStorageKey ->
  (k = instanceStorageKey ->
   isUndefined (Storage.get instanceStorageKey VUndefined s) = false) ->
  (k = firstSessionDateStorageKey ->
   isUndefined (Storage.get firstSessionDateStorageKey VUndefined s) = false) ->
  Storage.get k VUndefined (initTelemetry env s) = Storage.get k VUndefined s.
Proof.
  intros Hl Hc Hi Hf.
  destruct seed_keys_differ as (Hif & _).
  unfold initTelemetry.
  rewrite StorageFacts.get_store_other by congruence.
  rewrite StorageFacts.get_store_other by congruence.
  destruct (isUndefined (Storage.get instanceStorageKey VUndefined s)) eqn:Ei.
  - assert (Hki : instanceStorageKey <> k) by (intros E; symmetry in E; apply Hi in E; congruence).
    rewrite (StorageFacts.get_store_other _ _ _ Hif).
    destruct (isUndefined (Storage.get firstSessionDateStorageKey VUndefined s)) eqn:Ef.
    + assert (Hkf : firstSessionDateStorageKey <> k)
        by (intros E; symmetry in E; apply Hf in E; congruence).
      now rewrite !StorageFacts.get_store_other.
    + now rewrite StorageFacts.get_store_other.
  - destruct (isUndefined (Storage.get firstSessionDateStorageKey VUndefined s)) eqn:Ef.
    + assert (Hkf : firstSessionDateStorageKey <> k)
        by (intros E; symmetry in E; apply Hf in E; congruence).
      now rewrite StorageFacts.get_store_other.
    + reflexivity.
Qed.

Lemma get_seeded_other (k k' : Key) (v : Value) (u : StorageMainService) :
  k <> k' ->
  Storage.get k' VUndefined
    (if isUndefined (Storage.get k VUndefined u) then Storage.store k v u else u)
  = Storage.get k' VUndefined u.
Proof.
  intros Hne. destruct (isUndefined _); [|reflexivity].
  now apply StorageFacts.get_store_other.
Qed.

Lemma get_seeded_same (k : Key) (v : Value) (u : StorageMainService) :
  isUndefined v = false ->
  isUndefined (Storage.get k VUndefined
    (if isUndefined (Storage.get k VUndefined u) then Storage.store k v u else u)) = false.
Proof.
  intros Hv. destruct (isUndefined (Storage.get k VUndefined u)) eqn:E; [|exact E].
  now rewrite StorageFacts.get_store_same.
Qed.

Lemma initTelemetry_defines (env : TelemetryEnv) (s : StorageMainService) :
  isUndefined (Storage.get instanceStorageKey VUndefined (initTelemetry env s)) = false /\
  isUndefined (Storage.get firstSessionDateStorageKey VUndefined (initTelemetry env s)) = false /\
  Storage.get currentSessionDateStorageKey VUndefined (initTelemetry env s)
  = VString (currentSessionNow env).
Proof.
  destruct seed_keys_differ as (Hif & Hil & Hic & Hfl & Hfc & Hlc).
  unfold initTelemetry; cbv zeta.
  rewrite StorageFacts.get_store_same.
  rewrite !(StorageFacts.get_store_other _ _ _ (not_eq_sym Hic)).
  rewrite !(StorageFacts.get_store_other _ _ _ (not_eq_sym Hil)).
  rewrite !(StorageFacts.get_store_other _ _ _ (not_eq_sym Hfc)).
  rewrite !(StorageFacts.get_store_other _ _ _ (not_eq_sym Hfl)).
  repeat split.
  - rewrite (get_seeded_other _ _ (not_eq_sym Hif)).
    now apply get_seeded_same.
  - now apply get_seeded_same.
Qed.

Lemma initTelemetry_rotates (env : TelemetryEnv) (s : StorageMainService) :
  Storage.get lastSessionDateStorageKey VUndefined (initTelemetry env s)
  = (if isUndefined (Storage.get currentSessionDateStorageKey VUndefined s)
     then VNull else Storage.get currentSessionDateStorageKey VUndefined s).
Proof.
  destruct seed_keys_differ as (Hif & Hil & Hic & Hfl & Hfc & Hlc).
  unfold initTelemetry; cbv zeta.
  rewrite (StorageFacts.get_store_other _ _ _ (not_eq_sym Hlc)), StorageFacts.get_store_same.
  now rewrite (get_seeded_other _ _ Hfc), (get_seeded_other _ _ Hic).
Qed.

(** C3: a run of the identity seeding on a storage in which the
    installation id (resp. the first-session date) is already set makes no
    call on that key and leaves its value as it was; every run ends with
    the two calls that store the previous current-session date (or [null]
    when there was none) as last-session date and the fresh date as
    current-session date, and the storage then holds these values.  Run
    twice, the second run keeps the installation id and first-session date
    of the first and rotates the first run's current-session date into the
    last-session date. *)
Theorem initTelemetry_seeds_once_and_rotates (env env2 : TelemetryEnv) (s : StorageMainService) :
  let s' := initTelemetry env s in
  let made := journalSince s s' in
  let previous := Storage.get currentSessionDateStorageKey VUndefined s in
  let rotated := if isUndefined previous then VNull else previous in
  (isUndefined (Storage.get instanceStorageKey VUndefined s) = false ->
     existsb (touches instanceStorageKey) made = false /\
     Storage.get instanceStorageKey VUndefined s' = Storage.get instanceStorageKey VUndefined s) /\
  (isUndefined (Storage.get firstSessionDateStorageKey VUndefined s) = false ->
     existsb (touches firstSessionDateStorageKey) made = false /\
     Storage.get firstSessionDateStorageKey VUndefined s'
     = Storage.get firstSessionDateStorageKey VUndefined s) /\
  (exists created,
     made = created ++ [CallStore lastSessionDateStorageKey rotated;
                         CallStore currentSessionDateStorageKey (VString (currentSessionNow env))]) /\
  Storage.get lastSessionDateStorageKey VUndefined s' = rotated /\
  Storage.get currentSessionDateStorageKey VUndefined s' = VString (currentSessionNow env) /\
  (let s'' := initTelemetry env2 s' in
   Storage.get instanceStorageKey VUndefined s'' = Storage.get instanceStorageKey VUndefined s' /\
   Storage.get firstSessionDateStorageKey VUndefined s''
   = Storage.get firstSessionDateStorageKey VUndefined s' /\
   Storage.get lastSessionDateStorageKey VUndefined s'' = VString (currentSessionNow env) /\
   Storage.get currentSessionDateStorageKey VUndefined s'' = VString (currentSessionNow env2)).
Proof.
  intros s' made previous rotated.
  destruct seed_keys_differ as (Hif & Hil & Hic & Hfl & Hfc & Hlc).
  pose proof (initTelemetry_journal env s) as Hj. cbv zeta in Hj.
  apply StorageFacts.journalSince_app in Hj. fold s' made previous rotated in Hj.
  pose proof initTelemetry_rotates as Hlast.
  destruct (initTelemetry_defines env s) as (Hdi & Hdf & Hdc).
  repeat split.
  - rewrite Hj, H. simpl.
    destruct (isUndefined (Storage.get firstSessionDateStorageKey VUndefined s)); simpl;
      repeat match goal with
        | |- context [String.eqb ?a ?b] => destruct (String.eqb_spec a b); try congruence
        end; reflexivity.
  - apply initTelemetry_keeps; congruence.
  - rewrite Hj, H. simpl.
    destruct (isUndefined (Storage.get instanceStorageKey VUndefined s)); simpl;
      repeat match goal with
        | |- context [String.eqb ?a ?b] => destruct (String.eqb_spec a b); try congruence
        end; reflexivity.
  - apply initTelemetry_keeps; congruence.
  - rewrite Hj. rewrite app_assoc. eexists. reflexivity.
  - apply Hlast.
  - apply initTelemetry_defines.
  - apply initTelemetry_keeps; try congruence; intros _; exact Hdi.
  - apply initTelemetry_keeps; try congruence; intros _; exact Hdf.
  - rewrite Hlast. unfold s'. rewrite Hdc. reflexivity.
  - apply initTelemetry_defines.
Qed.
End Seeding.

Lemma initTelemetry_seeds_once_and_rotates_witness :
  let env := {| uuid := "u-2"; firstSessionNow := "Tue"; currentSessionNow := "Wed" |} in
  let s := mkStorage [("telemetry.instanceId", VString "u-1");
                      ("telemetry.currentSessionDate", VString "Mon")] [] (fun _ => "ok") in
  let s' := initTelemetry (properties := telemetryKeys) env s in
  existsb (touches "telemetry.instanceId") (journalSince s s') = false /\
  Storage.get "telemetry.instanceId" VUndefined s' = VString "u-1" /\
  Storage.get "telemetry.lastSessionDate" VUndefined s' = VString "Mon" /\
  Storage.get "telemetry.currentSessionDate" VUndefined s' = VString "Wed".
Proof.
  intros env s s'.
  assert (D : NoDup [@instanceStorageKey telemetryKeys; @firstSessionDateStorageKey telemetryKeys;
                     @lastSessionDateStorageKey telemetryKeys;
                     @currentSessionDateStorageKey telemetryKeys]).
  { repeat constructor; simpl; intuition discriminate. }
  destruct (@initTelemetry_seeds_once_and_rotates telemetryKeys D env env s)
    as (Hi & _ & _ & Hl & Hc & _).
  destruct (Hi eq_refl) as (Hi1 & Hi2).
  exact (conj Hi1 (conj Hi2 (conj Hl Hc))).
Defined.

(** ** Batch update on the Gateway *)

Module UpdateFacts.
Lemma journal_fold_store (l : list Item) (s : StorageMainService) :
  journal (fold_left (fun s kv => Storage.store (fst kv) (snd kv) s) l s)
  = journal s ++ map (fun kv => CallStore (fst kv) (snd kv)) l.
Proof.
  revert s. induction l as [|kv rest IH]; intros s; simpl.
  - now rewrite app_nil_r.
  - rewrite IH. simpl. now rewrite <- app_assoc.
Qed.

Lemma journal_fold_remove (l : list Key) (s : StorageMainService) :
  journal (fold_left (fun s key => Storage.remove key s) l s)
  = journal s ++ map CallRemove l.
Proof.
  revert s. induction l as [|k rest IH]; intros s; simpl.
  - now rewrite app_nil_r.
  - rewrite IH. simpl. now rewrite <- app_assoc.
Qed.

Lemma get_fold_remove_other (k : Key) (d : Value) (l : list Key) (s : StorageMainService) :
  ~ In k l ->
  Storage.get k d (fold_left (fun s key => Storage.remove key s) l s) = Storage.get k d s.
Proof.
  revert s. induction l as [|k0 rest IH]; intros s Hnin; simpl; auto.
  rewrite IH by (simpl in Hnin; tauto).
  apply StorageFacts.get_remove_other. simpl in Hnin. tauto.
Qed.

Lemma get_fold_remove (k : Key) (d : Value) (l : list Key) (s : StorageMainService) :
  In k l ->
  Storage.get k d (fold_left (fun s key => Storage.remove key s) l s) = d.
Proof.
  revert s. induction l as [|k0 rest IH]; intros s Hin; simpl; [contradiction|].
  destruct (in_dec string_dec k rest) as [Hrest|Hrest]; [now apply IH|].
  destruct Hin as [->|Hin]; [|contradiction].
  rewrite get_fold_remove_other by assumption.
  apply StorageFacts.get_remove_same.
Qed.

Lemma applyUpdate_journal (r : ISerializableUpdateRequest) (s : StorageMainService) :
  journal (applyUpdate r s)
  = journal s ++ map (fun kv => CallStore (fst kv) (snd kv)) (inserted r)
    ++ map CallRemove (deleted r).
Proof.
  unfold applyUpdate, inserted, deleted.
  destruct (insert r) as [ins|], (delete r) as [del|]; simpl;
    rewrite ?journal_fold_remove, ?journal_fold_store, ?app_nil_r, <- ?app_assoc;
    reflexivity.
Qed.
End UpdateFacts.

(** C4: the body of the Gateway's [updateItems] makes all its [store]
    calls before its first [remove] call, so a key of the delete list is
    absent from the storage when the call has completed, whether or not
    the insert list holds it too. *)
Theorem updateItems_inserts_then_deletes
  (r : ISerializableUpdateRequest) (s : StorageMainService) (k : Key) :
  In k (deleted r) ->
  body (RUpdateItems (ArgRequest r)) s = (applyUpdate r s, Resolved ReplyVoid) /\
  journalSince s (applyUpdate r s)
  = map (fun kv => CallStore (fst kv) (snd kv)) (inserted r) ++ map CallRemove (deleted r) /\
  JsMap.has k (items (applyUpdate r s)) = false /\
  ~ In k (map fst (mapToSerializable (items (applyUpdate r s)))).
Proof.
  intros Hin.
  assert (Hget : JsMap.get k (items (applyUpdate r s)) = None).
  { unfold deleted in Hin. unfold applyUpdate.
    destruct (delete r) as [del|]; [|contradiction].
    pose proof (@UpdateFacts.get_fold_remove k VUndefined del
                  (match insert r with
                   | Some l => fold_left (fun s kv => Storage.store (fst kv) (snd kv) s) l s
                   | None => s
                   end) Hin) as Hu.
    pose proof (@UpdateFacts.get_fold_remove k VNull del
                  (match insert r with
                   | Some l => fold_left (fun s kv => Storage.store (fst kv) (snd kv) s) l s
                   | None => s
                   end) Hin) as Hn.
    unfold Storage.get in Hu, Hn.
    destruct (JsMap.get k _); [congruence | reflexivity]. }
  repeat split.
  - apply StorageFacts.journalSince_app, UpdateFacts.applyUpdate_journal.
  - unfold JsMap.has. now rewrite Hget.
  - rewrite mapToSerializable_entries. now apply JsMapFacts.get_None_keys.
Qed.

Lemma updateItems_inserts_then_deletes_witness :
  let r := {| insert := Some [("k", VString "v"); ("j", VString "w")]; delete := Some ["k"] |} in
  let s := mkStorage [("k", VString "old")] [] (fun _ => "ok") in
  In "k" (deleted r) /\
  journalSince s (applyUpdate r s)
  = [CallStore "k" (VString "v"); CallStore "j" (VString "w"); CallRemove "k"] /\
  JsMap.has "k" (items (applyUpdate r s)) = false.
Proof.
  intros r s.
  assert (Hin : In "k" (deleted r)) by (simpl; auto).
  destruct (@updateItems_inserts_then_deletes r s "k" Hin) as (_ & Hj & Hh & _).
  exact (conj Hin (conj Hj Hh)).
Defined.

(** ** Serialization of a flushed batch *)

Module SerializeFacts.
Section WithReader.
Variable read : Key -> Value.

Lemma collect_wf (events : list IStorageChangeEvent) (acc : JsMap.t Value) :
  JsMap.wf acc -> JsMap.wf (fold_left (collectWith read) events acc).
Proof.
  revert acc. induction events as [|e rest IH]; intros acc Hacc; simpl; auto.
  apply IH. now apply JsMapFacts.wf_set.
Qed.

Lemma collect_keys (events : list IStorageChangeEvent) (acc : JsMap.t Value) (k : Key) :
  In k (JsMap.keys (fold_left (collectWith read) events acc))
  <-> In k (JsMap.keys acc) \/ In k (map key events).
Proof.
  revert acc. induction events as [|e rest IH]; intros acc; simpl.
  - tauto.
  - rewrite IH. unfold collectWith. rewrite JsMapFacts.keys_set.
    intuition congruence.
Qed.

Lemma collect_stable (events : list IStorageChangeEvent) (acc : JsMap.t Value) (k : Key) :
  JsMap.get k acc = Some (read k) ->
  JsMap.get k (fold_left (collectWith read) events acc) = Some (read k).
Proof.
  revert acc. induction events as [|e rest IH]; intros acc Hacc; simpl; auto.
  apply IH. unfold collectWith.
  destruct (String.eqb_spec (key e) k) as [->|Hne].
  - apply JsMapFacts.get_set_same.
  - now rewrite JsMapFacts.get_set_other.
Qed.

Lemma collect_get (events : list IStorageChangeEvent) (acc : JsMap.t Value) (k : Key) :
  In k (map key events) ->
  JsMap.get k (fold_left (collectWith read) events acc) = Some (read k).
Proof.
  revert acc. induction events as [|e rest IH]; intros acc Hin; simpl; [contradiction|].
  destruct (String.eqb_spec (key e) k) as [E|Hne].
  - apply collect_stable. unfold collectWith. rewrite E. apply JsMapFacts.get_set_same.
  - apply IH. simpl in Hin. tauto.
Qed.
End WithReader.

Lemma get_entry (V : Type) (m : JsMap.t V) (k : Key) (v : V) :
  JsMap.wf m -> In (k, v) m -> JsMap.get k m = Some v.
Proof.
  unfold JsMap.wf. induction m as [|[k0 v0] rest IH]; simpl; intros Hwf Hin; [contradiction|].
  inversion Hwf as [|? ? Hnin Hrest]; subst.
  destruct Hin as [E|Hin].
  - inversion E; subst. now rewrite String.eqb_refl.
  - destruct (String.eqb_spec k k0) as [->|Hne]; [|now apply IH].
    exfalso. apply Hnin. change (In (fst (k0, v)) (map fst rest)). now apply in_map.
Qed.

Lemma entry_get (V : Type) (m : JsMap.t V) (k : Key) (v : V) :
  JsMap.get k m = Some v -> In (k, v) m.
Proof.
  induction m as [|[k0 v0] rest IH]; simpl; [discriminate|].
  destruct (String.eqb_spec k k0) as [->|Hne]; intros H.
  - inversion H; subst. now left.
  - right. now apply IH.
Qed.

(** What [serializeEvents] puts on the wire: one item per key that occurs
    in the batch, carrying what a [get] without fallback returns. *)
Lemma serializeEvents_items (events : list IStorageChangeEvent) (s : StorageMainService) :
  let sent := changed (serializeEvents events s) in
  NoDup (map fst sent) /\
  (forall k, In k (map fst sent) <-> In k (map key events)) /\
  (forall k v, In (k, v) sent <->
               In k (map key events) /\ v = Storage.get k VUndefined s).
Proof.
  cbv zeta. unfold serializeEvents. simpl. rewrite mapToSerializable_entries.
  change (fun items event => JsMap.set (key event) (Storage.get (key event) VUndefined s) items)
    with (collectWith (fun k => Storage.get k VUndefined s)).
  set (read := fun k => Storage.get k VUndefined s).
  assert (Hwf : JsMap.wf (fold_left (collectWith read) events JsMap.empty))
    by (apply collect_wf; constructor).
  assert (Hkeys : forall k, In k (map fst (fold_left (collectWith read) events JsMap.empty))
                            <-> In k (map key events)).
  { intros k. fold (JsMap.keys (fold_left (collectWith read) events JsMap.empty)).
    rewrite collect_keys. simpl. tauto. }
  split; [exact Hwf|]. split; [exact Hkeys|].
  intros k v. split.
  - intros Hin.
    assert (Hk : In k (map key events)).
    { apply Hkeys. change k with (fst (k, v)). now apply in_map. }
    split; [exact Hk|].
    apply get_entry in Hin; [|exact Hwf].
    rewrite (@collect_get read events JsMap.empty k Hk) in Hin. now inversion Hin.
  - intros [Hk ->]. apply entry_get. now apply collect_get.
Qed.
End SerializeFacts.

(** C10: when the flushed batch names a key that the storage no longer
    holds, the event fired by the Gateway still has an item for that key,
    whose value is [undefined], the result of the [get] without fallback. *)
Theorem deleted_key_is_sent_with_sentinel
  (events : list IStorageChangeEvent) (c : GlobalStorageDatabaseChannel) (k : Key) :
  In k (map key events) ->
  JsMap.has k (items (storageMainService c)) = false ->
  Storage.get k VUndefined (storageMainService c) = VUndefined /\
  onDidChangeItems (onDebounced events c)
  = onDidChangeItems c ++ [serializeEvents events (storageMainService c)] /\
  In (k, VUndefined) (changed (serializeEvents events (storageMainService c))).
Proof.
  intros Hin Habsent.
  assert (Hget : Storage.get k VUndefined (storageMainService c) = VUndefined).
  { unfold Storage.get. unfold JsMap.has in Habsent.
    destruct (JsMap.get k _); [discriminate | reflexivity]. }
  split; [exact Hget|]. split.
  - unfold onDebounced. destruct events; [contradiction | reflexivity].
  - apply SerializeFacts.serializeEvents_items. split; [exact Hin | now rewrite Hget].
Qed.

Lemma deleted_key_is_sent_with_sentinel_witness :
  let c := withStorage (mkStorage [("a", VString "1")] [] (fun _ => "ok"))
             (construct (mkStorage [] [] (fun _ => "ok"))) in
  let events := [{| key := "a" |}; {| key := "b" |}] in
  In "b" (map key events) /\
  JsMap.has "b" (items (storageMainService c)) = false /\
  In ("b", VUndefined) (changed (serializeEvents events (storageMainService c))).
Proof.
  intros c events.
  assert (Hin : In "b" (map key events)) by (simpl; auto).
  assert (Habs : JsMap.has "b" (items (storageMainService c)) = false) by reflexivity.
  destruct (@deleted_key_is_sent_with_sentinel events c "b" Hin Habs) as (_ & _ & H).
  exact (conj Hin (conj Habs H)).
Defined.

(** ** Debounced change propagation *)

Section Coalescing.
Context {properties : WorkbenchCommonProperties}.

Lemma run_app (xs ys : list Input) (c : GlobalStorageDatabaseChannel) :
  run (xs ++ ys) c = run ys (run xs c).
Proof. unfold run. apply fold_left_app. Qed.

Lemma run_storage (ws : list StorageCall) (c : GlobalStorageDatabaseChannel) :
  run (map InStorage ws) c
  = withStorage (fold_left (fun s w => Storage.apply w s) ws (storageMainService c)) c.
Proof.
  revert c. induction ws as [|w rest IH]; intros c.
  - destruct c; reflexivity.
  - change (run (map InStorage (w :: rest)) c)
      with (run (map InStorage rest) (step c (InStorage w))).
    rewrite IH. reflexivity.
Qed.

(** Less than the quiet period after the last raw event, no flush runs. *)
Lemma elapse_quiet (acc : list IStorageChangeEvent) (dt : nat)
  (c : GlobalStorageDatabaseChannel) :
  armed acc c -> dt < STORAGE_CHANGE_DEBOUNCE_TIME ->
  elapse dt c = withClock (clock c + dt) c.
Proof.
  intros [[_ Hd]|[_ Hd]] Hdt; unfold elapse; simpl; rewrite Hd; unfold Debounce.expire; simpl.
  - unfold withDebouncer, withClock. simpl. now rewrite Hd.
  - assert (Hleb : Nat.leb (clock c + STORAGE_CHANGE_DEBOUNCE_TIME) (clock c + dt) = false)
      by (apply Nat.leb_gt; lia).
    rewrite Hleb. unfold withDebouncer, withClock. simpl. now rewrite Hd.
Qed.

(** One quiet period or more after the last raw event, the batch is
    flushed and serialized against the storage as it then is. *)
Lemma elapse_flush (acc : list IStorageChangeEvent) (dt : nat)
  (c : GlobalStorageDatabaseChannel) :
  armed acc c -> acc <> [] -> STORAGE_CHANGE_DEBOUNCE_TIME <= dt ->
  elapse dt c
  = fire (serializeEvents acc (storageMainService c))
      (withDebouncer (Some Debounce.idle) (withClock (clock c + dt) c)).
Proof.
  intros [[Hnil _]|[_ Hd]] Hne Hdt; [contradiction|].
  unfold elapse; simpl. rewrite Hd. unfold Debounce.expire; simpl.
  assert (Hleb : Nat.leb (clock c + STORAGE_CHANGE_DEBOUNCE_TIME) (clock c + dt) = true)
    by (apply Nat.leb_le; lia).
  rewrite Hleb. unfold onDebounced.
  destruct acc as [|e rest]; [contradiction | reflexivity].
Qed.

Lemma storageChanged_armed (acc : list IStorageChangeEvent) (e : IStorageChangeEvent)
  (c : GlobalStorageDatabaseChannel) (now : nat) (s : StorageMainService) :
  armed acc c ->
  let c' := storageChanged e (withStorage s (withClock now c)) in
  armed (acc ++ [e]) c' /\
  onDidChangeItems c' = onDidChangeItems c /\
  storageMainService c' = s.
Proof.
  intros Harmed. cbv zeta. unfold storageChanged. simpl.
  assert (Hne : acc ++ [e] <> []) by (destruct acc; discriminate).
  destruct Harmed as [[-> Hd]|[Hacc Hd]]; rewrite Hd; simpl;
    (split; [right; split; [exact Hne | reflexivity] | split; reflexivity]).
Qed.

Lemma change_step (acc : list IStorageChangeEvent) (ch : Change)
  (c : GlobalStorageDatabaseChannel) :
  armed acc c -> gap ch < STORAGE_CHANGE_DEBOUNCE_TIME ->
  let c' := run (changeInputs ch) c in
  armed (acc ++ [ {| key := changedKey ch |} ]) c' /\
  onDidChangeItems c' = onDidChangeItems c /\
  storageMainService c'
  = fold_left (fun s w => Storage.apply w s) (writes ch) (storageMainService c).
Proof.
  intros Harmed Hgap. cbv zeta. unfold changeInputs.
  change (run (InElapse (gap ch) :: map InStorage (writes ch)
               ++ [InStorageChanged {| key := changedKey ch |}]) c)
    with (run (map InStorage (writes ch) ++ [InStorageChanged {| key := changedKey ch |}])
            (elapse (gap ch) c)).
  rewrite run_app, run_storage, (elapse_quiet Harmed Hgap).
  change (run [InStorageChanged {| key := changedKey ch |}] ?x)
    with (storageChanged {| key := changedKey ch |} x).
  simpl storageMainService.
  apply (storageChanged_armed {| key := changedKey ch |} (clock c + gap ch)
           (fold_left (fun s w => Storage.apply w s) (writes ch) (storageMainService c))
           Harmed).
Qed.

Lemma burst_run (b : list Change) (acc : list IStorageChangeEvent)
  (c : GlobalStorageDatabaseChannel) :
  armed acc c ->
  Forall (fun ch => gap ch < STORAGE_CHANGE_DEBOUNCE_TIME) b ->
  let c' := run (burstInputs b) c in
  armed (acc ++ changeEvents b) c' /\
  onDidChangeItems c' = onDidChangeItems c /\
  storageMainService c'
  = fold_left (fun s w => Storage.apply w s) (burstWrites b) (storageMainService c).
Proof.
  revert acc c. induction b as [|ch rest IH]; intros acc c Harmed Hgaps; cbv zeta.
  - simpl. rewrite app_nil_r. auto.
  - inversion Hgaps as [|? ? Hgap Hrest]; subst.
    unfold burstInputs, burstWrites.
    change (flat_map changeInputs (ch :: rest))
      with (changeInputs ch ++ flat_map changeInputs rest).
    change (flat_map writes (ch :: rest)) with (writes ch ++ flat_map writes rest).
    rewrite run_app, fold_left_app.
    destruct (change_step ch Harmed Hgap) as (Ha & Hf & Hs).
    destruct (IH _ _ Ha Hrest) as (Ha' & Hf' & Hs').
    unfold burstInputs, burstWrites in *.
    rewrite Hf', Hf, Hs', Hs. simpl changeEvents.
    replace (acc ++ {| key := changedKey ch |} :: changeEvents rest)
      with ((acc ++ [ {| key := changedKey ch |} ]) ++ changeEvents rest)
      by (rewrite <- app_assoc; reflexivity).
    auto.
Qed.

(** C5: raw change events that follow one another within the quiet
    period are answered by exactly one [onDidChangeItems] event, fired
    once the quiet period has passed; it has one item per distinct changed
    key, whose value is what the storage holds for the key at the flush,
    after every write made in the meantime. *)
Theorem debounce_coalesces (c : GlobalStorageDatabaseChannel) (b : list Change)
  (late : list StorageCall) (dt : nat) :
  debouncer c = Some Debounce.idle ->
  b <> [] ->
  Forall (fun ch => gap ch < STORAGE_CHANGE_DEBOUNCE_TIME) b ->
  STORAGE_CHANGE_DEBOUNCE_TIME <= dt ->
  let quiet := run (burstInputs b ++ map InStorage late) c in
  let c' := run [InElapse dt] quiet in
  onDidChangeItems quiet = onDidChangeItems c /\
  storageMainService c'
  = fold_left (fun s w => Storage.apply w s) (burstWrites b ++ late) (storageMainService c) /\
  debouncer c' = Some Debounce.idle /\
  exists e,
    onDidChangeItems c' = onDidChangeItems c ++ [e] /\
    NoDup (map fst (changed e)) /\
    (forall k, In k (map fst (changed e)) <-> In k (map changedKey b)) /\
    (forall k v, In (k, v) (changed e) ->
                 v = Storage.get k VUndefined (storageMainService c')).
Proof.
  intros Hidle Hb Hgaps Hdt quiet c'.
  assert (Harmed : armed [] c) by (left; auto).
  destruct (burst_run Harmed Hgaps) as (Ha & Hf & Hs). simpl app in Ha.
  assert (Hq : quiet = withStorage
                 (fold_left (fun s w => Storage.apply w s) (burstWrites b ++ late)
                    (storageMainService c)) (run (burstInputs b) c)).
  { unfold quiet. rewrite run_app, run_storage, fold_left_app, Hs. reflexivity. }
  assert (Haq : armed (changeEvents b) quiet).
  { rewrite Hq. destruct Ha as [[E Hd]|[E Hd]]; [left | right]; auto. }
  assert (Hne : changeEvents b <> []) by (destruct b; [contradiction | discriminate]).
  assert (Hc' : c' = elapse dt quiet) by reflexivity.
  rewrite (elapse_flush Haq Hne Hdt) in Hc'.
  assert (Hsq : storageMainService quiet
                = fold_left (fun s w => Storage.apply w s) (burstWrites b ++ late)
                    (storageMainService c)) by (rewrite Hq; reflexivity).
  assert (Hfq : onDidChangeItems quiet = onDidChangeItems c) by (rewrite Hq; exact Hf).
  split; [exact Hfq|].
  rewrite Hc'. simpl. split; [exact Hsq|]. split; [reflexivity|].
  exists (serializeEvents (changeEvents b) (storageMainService quiet)).
  split; [now rewrite Hfq|].
  destruct (SerializeFacts.serializeEvents_items (changeEvents b) (storageMainService quiet))
    as (Hnd & Hkeys & Hvals).
  split; [exact Hnd|]. split.
  - intros k. rewrite Hkeys. unfold changeEvents. rewrite map_map. simpl. tauto.
  - intros k v Hin. now apply Hvals in Hin.
Qed.
End Coalescing.

Lemma debounce_coalesces_witness :
  let c := run (properties := telemetryKeys)
             [InInitialized InitResolved
                {| uuid := "u"; firstSessionNow := "Mon"; currentSessionNow := "Mon" |}]
             (construct (mkStorage [] [] (fun _ => "ok"))) in
  let b := [ {| gap := 0; writes := [CallStore "a" (VString "1")]; changedKey := "a" |};
             {| gap := 10; writes := [CallStore "b" (VString "2")]; changedKey := "b" |};
             {| gap := 99; writes := [CallRemove "a"]; changedKey := "a" |} ] in
  (debouncer c = Some Debounce.idle /\ b <> [] /\
   Forall (fun ch => gap ch < STORAGE_CHANGE_DEBOUNCE_TIME) b /\
   STORAGE_CHANGE_DEBOUNCE_TIME <= 100) /\
  exists e,
    onDidChangeItems
      (run (properties := telemetryKeys) [InElapse 100]
         (run (properties := telemetryKeys) (burstInputs b ++ map InStorage []) c))
    = onDidChangeItems c ++ [e] /\
    NoDup (map fst (changed e)) /\
    (forall k, In k (map fst (changed e)) <-> In k (map changedKey b)).
Proof.
  intros c b.
  assert (H1 : debouncer c = Some Debounce.idle) by reflexivity.
  assert (H2 : b <> []) by discriminate.
  assert (H3 : Forall (fun ch => gap ch < STORAGE_CHANGE_DEBOUNCE_TIME) b)
    by (repeat constructor; unfold STORAGE_CHANGE_DEBOUNCE_TIME; simpl; lia).
  assert (H4 : STORAGE_CHANGE_DEBOUNCE_TIME <= 100) by (unfold STORAGE_CHANGE_DEBOUNCE_TIME; lia).
  split; [exact (conj H1 (conj H2 (conj H3 H4)))|].
  destruct (@debounce_coalesces telemetryKeys c b [] 100 H1 H2 H3 H4)
    as (_ & _ & _ & e & He & Hnd & Hk & _).
  exists e. exact (conj He (conj Hnd Hk)).
Defined.

(** Raw events for "a", then "b", then "a" again within the quiet period,
    "a" being removed in the end: one event, one item per key. *)
Example debounce_a_b_a :
  onDidChangeItems
    (run (properties := telemetryKeys)
       [InInitialized InitResolved
          {| uuid := "u"; firstSessionNow := "Mon"; currentSessionNow := "Mon" |};
        InStorage (CallStore "a" (VString "1")); InStorageChanged {| key := "a" |};
        InElapse 10;
        InStorage (CallStore "b" (VString "2")); InStorageChanged {| key := "b" |};
        InElapse 99;
        InStorage (CallRemove "a"); InStorageChanged {| key := "a" |};
        InElapse 99; InElapse 1; InElapse 500]
       (construct (mkStorage [] [] (fun _ => "ok"))))
  = [ {| changed := [("a", VUndefined); ("b", VString "2")] |} ].
Proof. vm_compute. reflexivity. Qed.

(** ** Readiness *)

Section Readiness.
Context {properties : WorkbenchCommonProperties}.

Lemma execute_trace (c : GlobalStorageDatabaseChannel) (job : nat * Reaction) :
  trace (execute c job) = trace c ++ [TExecuted (fst job)] /\
  whenReady (execute c job) = whenReady c.
Proof. unfold execute. destruct (body (snd job) (storageMainService c)). simpl. auto. Qed.

Lemma fold_execute_trace (q : list (nat * Reaction)) (c : GlobalStorageDatabaseChannel) :
  trace (fold_left execute q c) = trace c ++ map TExecuted (map fst q) /\
  whenReady (fold_left execute q c) = whenReady c.
Proof.
  revert c. induction q as [|job rest IH]; intros c; simpl.
  - now rewrite app_nil_r.
  - destruct (IH (execute c job)) as (Ht & Hw).
    destruct (execute_trace c job) as (Ht1 & Hw1).
    rewrite Ht, Hw, Ht1, Hw1, <- app_assoc. auto.
Qed.

Lemma thenReady_shaped (id : nat) (r : Reaction) (c : GlobalStorageDatabaseChannel) :
  shaped c -> shaped (thenReady id r c).
Proof.
  intros [(q & Hq & Ht)|(Hf & ids & Ht)]; unfold thenReady.
  - rewrite Hq. left. exists (q ++ [(id, r)]). simpl. auto.
  - rewrite Hf. destruct (execute_trace c (id, r)) as (Ht1 & Hw1).
    right. rewrite Hw1, Ht1, Ht. split; [exact Hf|].
    exists (ids ++ [id]). rewrite map_app. reflexivity.
Qed.

Lemma elapse_keeps (dt : nat) (c : GlobalStorageDatabaseChannel) :
  whenReady (elapse dt c) = whenReady c /\ trace (elapse dt c) = trace c.
Proof.
  unfold elapse. simpl. destruct (debouncer c) as [d|]; [|simpl; auto].
  destruct (Debounce.expire (clock c + dt) d) as [[events|] d']; [|simpl; auto].
  unfold onDebounced. destruct (Nat.eqb (length events) 0); simpl; auto.
Qed.

Lemma step_shaped (c : GlobalStorageDatabaseChannel) (i : Input) :
  shaped c -> shaped (step c i).
Proof.
  intros Hc. destruct i as [id command arg|outcome env|e|op|dt]; unfold step.
  - unfold call.
    destruct (String.eqb command "getItems"); [now apply thenReady_shaped|].
    destruct (String.eqb command "updateItems"); [now apply thenReady_shaped|].
    destruct (String.eqb command "checkIntegrity"); [now apply thenReady_shaped | exact Hc].
  - unfold initialized. destruct Hc as [(q & Hq & Ht)|(Hf & ids & Ht)].
    + rewrite Hq.
      destruct (fold_execute_trace q (markInitialized (init outcome env c))) as (Ht1 & Hw1).
      right. rewrite Hw1, Ht1. split; [reflexivity|].
      exists (map fst q).
      assert (Hti : trace (markInitialized (init outcome env c)) = [TInitialized]).
      { destruct outcome; simpl; now rewrite Ht. }
      now rewrite Hti.
    + rewrite Hf. right. eauto.
  - unfold storageChanged. destruct (debouncer c); exact Hc.
  - exact Hc.
  - destruct (elapse_keeps dt c) as (Hw & Ht). unfold shaped. now rewrite Hw, Ht.
Qed.

Lemma run_shaped (inputs : list Input) (c : GlobalStorageDatabaseChannel) :
  shaped c -> shaped (run inputs c).
Proof.
  revert c. induction inputs as [|i rest IH]; intros c Hc; [exact Hc|].
  apply (IH (step c i)). now apply step_shaped.
Qed.

Lemma shaped_gated (c : GlobalStorageDatabaseChannel) : shaped c -> gated (trace c).
Proof.
  intros [(q & _ & Ht)|(_ & ids & Ht)] before id after Hsplit; rewrite Ht in Hsplit.
  - destruct before; discriminate.
  - destruct before as [|x before'].
    + discriminate.
    + inversion Hsplit; subst. now left.
Qed.

Lemma fold_execute_settled (q : list (nat * Reaction)) (c : GlobalStorageDatabaseChannel) :
  map fst (settled (fold_left execute q c)) = map fst (settled c) ++ map fst q.
Proof.
  revert c. induction q as [|job rest IH]; intros c; simpl.
  - now rewrite app_nil_r.
  - rewrite IH. unfold execute. destruct (body (snd job) (storageMainService c)). simpl.
    now rewrite map_app, <- app_assoc.
Qed.

(** While [whenReady] is pending, a call only chains its reaction. *)
Lemma run_issue_pending (jobs : list (nat * Reaction)) (c : GlobalStorageDatabaseChannel)
  (q : list (nat * Reaction)) :
  whenReady c = Pending q ->
  run (issue jobs) c = withWhenReady (Pending (q ++ jobs)) c.
Proof.
  revert c q. induction jobs as [|[id r] rest IH]; intros c q Hq.
  - simpl. rewrite app_nil_r, <- Hq. destruct c; reflexivity.
  - change (run (issue ((id, r) :: rest)) c)
      with (run (issue rest) (step c (InCall id (commandOf r) (argOf r)))).
    assert (Hstep : step c (InCall id (commandOf r) (argOf r))
                    = withWhenReady (Pending (q ++ [(id, r)])) c).
    { destruct r; simpl; unfold thenReady; rewrite Hq; reflexivity. }
    rewrite Hstep, (IH _ (q ++ [(id, r)])) by reflexivity.
    rewrite <- app_assoc. reflexivity.
Qed.

(** C1: whatever the owner process receives and in whatever order, the
    body of a remote call runs only after the continuation of [init] has
    completed; calls issued while the channel is initializing stay
    unsettled and are all settled, in the order of issue, once the storage
    initialization has settled.  An [updateItems] and a [getItems] issued while the channel
    is initializing are both resolved once the storage initialization has
    settled, in the order of issue, and a [getItems] issued after the
    [updateItems], before or after that moment, replies with the storage
    as the update left it. *)
Theorem calls_wait_for_initialization
  (storage : StorageMainService) (inputs : list Input)
  (r : ISerializableUpdateRequest) (outcome : InitOutcome) (env : TelemetryEnv) :
  let seeded := initTelemetry env storage in
  let before := ReplyItems (mapToSerializable (items seeded)) in
  let after := ReplyItems (mapToSerializable (items (applyUpdate r seeded))) in
  gated (trace (run inputs (construct storage))) /\
  (forall jobs,
     settled (run (issue jobs) (construct storage)) = [] /\
     map fst (settled (run (issue jobs ++ [InInitialized outcome env]) (construct storage)))
     = map fst jobs) /\
  settled (run [InCall 1 "updateItems" (ArgRequest r); InCall 2 "getItems" ArgUndefined]
             (construct storage)) = [] /\
  settled (run [InCall 1 "updateItems" (ArgRequest r); InCall 2 "getItems" ArgUndefined;
                InInitialized outcome env] (construct storage))
  = [(1, Resolved ReplyVoid); (2, Resolved after)] /\
  settled (run [InCall 1 "getItems" ArgUndefined; InCall 2 "updateItems" (ArgRequest r);
                InCall 3 "checkIntegrity" (ArgBoolean true);
                InInitialized outcome env; InCall 4 "getItems" ArgUndefined]
             (construct storage))
  = [(1, Resolved before); (2, Resolved ReplyVoid);
     (3, Resolved (ReplyString (report (applyUpdate r seeded) true))); (4, Resolved after)].
Proof.
  cbv zeta. split; [|split].
  - apply shaped_gated, run_shaped. left. exists []. auto.
  - intros jobs.
    assert (Hq : run (issue jobs) (construct storage)
                 = withWhenReady (Pending jobs) (construct storage))
      by (apply (@run_issue_pending jobs (construct storage) []); reflexivity).
    split; [now rewrite Hq|].
    rewrite run_app, Hq.
    change (run [InInitialized outcome env] ?c) with (initialized outcome env c).
    unfold initialized, withWhenReady. simpl.
    rewrite fold_execute_settled. destruct outcome; reflexivity.
  - destruct outcome; repeat split.
Qed.

(** C7: when [storageMainService.initialize()] rejects, the error goes
    to [onUnexpectedError] and to the log and nowhere else: the identity
    values are seeded, the debounced listener is installed and [whenReady]
    is fulfilled exactly as after a successful initialization, and the
    three remote operations are served. *)
Theorem init_failure_is_swallowed
  (storage : StorageMainService) (error : string) (env : TelemetryEnv)
  (r : ISerializableUpdateRequest) (full : bool) :
  let c := run [InInitialized (InitRejected error) env] (construct storage) in
  let ok := run [InInitialized InitResolved env] (construct storage) in
  logService c = [error] /\ unexpectedErrors c = [error] /\
  logService ok = [] /\
  whenReady c = Fulfilled /\
  storageMainService c = initTelemetry env storage /\
  storageMainService c = storageMainService ok /\
  debouncer c = Some Debounce.idle /\
  trace c = [TInitialized] /\
  settled (run [InCall 1 "getItems" ArgUndefined; InCall 2 "updateItems" (ArgRequest r);
                InCall 3 "checkIntegrity" (ArgBoolean full)] c)
  = [(1, Resolved (ReplyItems (mapToSerializable (items (initTelemetry env storage)))));
     (2, Resolved ReplyVoid);
     (3, Resolved (ReplyString
                     (report (applyUpdate r (initTelemetry env storage)) full)))].
Proof. cbv zeta. repeat split. Qed.
End Readiness.

(** ** Proxy *)

Module ClientFacts.
Lemma unlisten_idempotent (d : IDisposable) (ch : IChannel) :
  Channel.unlisten d (Channel.unlisten d ch) = Channel.unlisten d ch.
Proof.
  unfold Channel.unlisten. simpl. f_equal.
  induction (listeners ch) as [|id rest IH]; simpl; auto.
  destruct (Nat.eqb id (listener d)) eqn:E; simpl; rewrite ?E; simpl; congruence.
Qed.

Lemma unlisten_unregisters (d : IDisposable) (ch : IChannel) :
  Channel.registered d (Channel.unlisten d ch) = false.
Proof.
  unfold Channel.registered, Channel.unlisten. simpl.
  induction (listeners ch) as [|id rest IH]; simpl; auto.
  destruct (Nat.eqb_spec id (listener d)) as [E|Hne]; simpl; auto.
  rewrite IH. destruct (Nat.eqb_spec (listener d) id); [congruence | reflexivity].
Qed.

Lemma filter_fresh (l : list nat) (n : nat) :
  Forall (fun k => k <= n) l ->
  filter (fun id => negb (Nat.eqb id (S n))) (l ++ [S n]) = l.
Proof.
  induction 1 as [|k rest Hk _ IH]; simpl.
  - now rewrite Nat.eqb_refl.
  - destruct (Nat.eqb_spec k (S n)); [lia|]. simpl. now rewrite IH.
Qed.

(** Releasing the handle obtained by [listen] restores the registry. *)
Lemma unlisten_listen (ch : IChannel) :
  Channel.unlisten (fst (Channel.listen ch)) (snd (Channel.listen ch)) = ch.
Proof.
  unfold Channel.unlisten, Channel.listen. simpl. destruct ch as [cs ls]. simpl. f_equal.
  apply filter_fresh. now apply list_max_le.
Qed.

Lemma listen_registers (ch : IChannel) :
  Channel.registered (fst (Channel.listen ch)) (snd (Channel.listen ch)) = true.
Proof.
  unfold Channel.registered, Channel.listen. simpl.
  rewrite existsb_app. simpl. now rewrite Nat.eqb_refl, orb_true_r.
Qed.

Lemma dispose_idempotent (d : option IDisposable) (ch : IChannel) :
  dispose (fst (dispose d ch)) (snd (dispose d ch)) = dispose d ch.
Proof.
  destruct d as [h|]; simpl; [|reflexivity].
  now rewrite unlisten_idempotent.
Qed.

(** After a teardown nothing is registered under the stored handle, no
    call was issued and no local event fired. *)
Lemma teardown_effect (c : GlobalStorageDatabaseChannelClient) (op : Client.Teardown) :
  let c' := Client.teardown c op in
  (onDidChangeItemsOnMainListener c', channel c')
  = dispose (onDidChangeItemsOnMainListener c) (channel c) /\
  calls (channel c') = calls (channel c) /\
  onDidChangeItemsExternal c' = onDidChangeItemsExternal c.
Proof.
  destruct op; unfold Client.teardown, Client.close, Client.dispose;
    destruct (onDidChangeItemsOnMainListener c) as [h|]; simpl; auto.
Qed.

Lemma teardown_again (ops : list Client.Teardown) (c : GlobalStorageDatabaseChannelClient)
  (op : Client.Teardown) :
  let c1 := Client.teardown c op in
  let cn := fold_left Client.teardown ops c1 in
  channel cn = channel c1 /\
  onDidChangeItemsOnMainListener cn = onDidChangeItemsOnMainListener c1 /\
  onDidChangeItemsExternal cn = onDidChangeItemsExternal c.
Proof.
  cbv zeta. revert c op. induction ops as [|op' rest IH]; intros c op.
  - simpl. split; [reflexivity|]. split; [reflexivity|]. apply teardown_effect.
  - simpl fold_left. destruct (IH (Client.teardown c op) op') as (Hc & Hl & He).
    rewrite Hc, Hl, He.
    destruct (teardown_effect (Client.teardown c op) op') as (Hd & _).
    destruct (teardown_effect c op) as (Hd0 & _ & He0).
    cbv zeta in *. rewrite He0.
    assert (Hpair : (onDidChangeItemsOnMainListener (Client.teardown (Client.teardown c op) op'),
                     channel (Client.teardown (Client.teardown c op) op'))
                    = (onDidChangeItemsOnMainListener (Client.teardown c op),
                       channel (Client.teardown c op))).
    { rewrite Hd.
      pose proof (dispose_idempotent (onDidChangeItemsOnMainListener c) (channel c)) as Hi.
      rewrite <- Hd0 in Hi. exact Hi. }
    inversion Hpair as [[E1 E2]]. rewrite E1, E2. auto.
Qed.

Lemma deliver_after_teardown (e : Payload) (c : GlobalStorageDatabaseChannelClient)
  (op : Client.Teardown) :
  Client.deliver e (Client.teardown c op) = Ok (Client.teardown c op).
Proof.
  destruct (teardown_effect c op) as (Hd & _). cbv zeta in Hd.
  unfold Client.deliver.
  destruct (onDidChangeItemsOnMainListener c) as [h|]; simpl in Hd;
    inversion Hd as [[E1 E2]]; rewrite E1; [|reflexivity].
  rewrite E2, unlisten_unregisters. reflexivity.
Qed.
End ClientFacts.

(** C6: the Proxy's [updateItems] on a request whose insert and delete
    parts are both absent or empty issues no remote call and returns a
    resolved promise; on any other request it issues exactly one remote
    [updateItems] call, whose argument carries the serialized insert items
    and the delete keys, and returns the promise of that call. *)
Theorem proxy_updateItems_skips_empty
  (request : IUpdateRequest) (c : GlobalStorageDatabaseChannelClient) :
  (emptyRequest request -> Client.updateItems request c = (c, PromiseResolved)) /\
  (~ emptyRequest request ->
   snd (Client.updateItems request c) = PromiseOfCall (length (calls (channel c))) /\
   calls (channel (fst (Client.updateItems request c)))
   = calls (channel c) ++ [ChannelCall "updateItems" (ArgRequest (serializableRequest request))] /\
   listeners (channel (fst (Client.updateItems request c))) = listeners (channel c) /\
   onDidChangeItemsExternal (fst (Client.updateItems request c)) = onDidChangeItemsExternal c).
Proof.
  unfold emptyRequest, Client.updateItems, serializableRequest.
  destruct request as [[m|] [s|]]; simpl.
  - destruct m as [|kv m'], s as [|k s']; simpl.
    + split; [reflexivity | intros H; exfalso; apply H; auto].
    + split; [intros [_ [H|H]]; discriminate | intros _; auto].
    + split; [intros [[H|H] _]; discriminate | intros _; auto].
    + split; [intros [[H|H] _]; discriminate | intros _; auto].
  - destruct m as [|kv m']; simpl.
    + split; [reflexivity | intros H; exfalso; apply H; auto].
    + split; [intros [[H|H] _]; discriminate | intros _; auto].
  - destruct s as [|k s']; simpl.
    + split; [reflexivity | intros H; exfalso; apply H; auto].
    + split; [intros [_ [H|H]]; discriminate | intros _; auto].
  - split; [reflexivity | intros H; exfalso; apply H; auto].
Qed.

Lemma proxy_updateItems_skips_empty_witness :
  let c := Client.construct {| calls := []; listeners := [] |} in
  let nothing := {| request_insert := Some JsMap.empty; request_delete := None |} in
  let something := {| request_insert := Some [("k", VString "v")];
                      request_delete := Some ["d"] |} in
  (emptyRequest nothing /\ Client.updateItems nothing c = (c, PromiseResolved)) /\
  (~ emptyRequest something /\
   calls (channel (fst (Client.updateItems something c)))
   = [ChannelCall "updateItems"
        (ArgRequest {| insert := Some [("k", VString "v")]; delete := Some ["d"] |})]).
Proof.
  intros c nothing something.
  assert (He : emptyRequest nothing) by (unfold emptyRequest; simpl; auto).
  assert (Hn : ~ emptyRequest something)
    by (unfold emptyRequest; simpl; intros [[H|H] _]; discriminate).
  split.
  - exact (conj He (proj1 (@proxy_updateItems_skips_empty nothing c) He)).
  - destruct (proj2 (@proxy_updateItems_skips_empty something c) Hn) as (_ & Hcalls & _).
    exact (conj Hn Hcalls).
Defined.

(** C8: on a payload whose [items] field is not an array the Proxy's
    handler returns normally and leaves the Proxy as it was, so no local
    event fires; on a payload whose [items] field is an array it fires
    exactly one local event, which carries the decoded mapping.  The
    handler is what a delivery runs while the Proxy is subscribed. *)
Theorem proxy_drops_malformed_payload
  (items : Wire) (c : GlobalStorageDatabaseChannelClient) (ch : IChannel) :
  (Array_isArray items = false ->
   Client.onDidChangeItemsOnMain (PObject items) c = Ok c) /\
  (Array_isArray items = true ->
   exists l c',
     items = WArray l /\
     Client.onDidChangeItemsOnMain (PObject items) c = Ok c' /\
     onDidChangeItemsExternal c' = onDidChangeItemsExternal c ++ [serializableToMap l] /\
     channel c' = channel c /\
     onDidChangeItemsOnMainListener c' = onDidChangeItemsOnMainListener c) /\
  Client.deliver (PObject items) (Client.construct ch)
  = Client.onDidChangeItemsOnMain (PObject items) (Client.construct ch).
Proof.
  split; [|split].
  - destruct items as [l|v]; simpl; [discriminate | reflexivity].
  - destruct items as [l|v]; simpl; [|discriminate].
    intros _. eexists l, _. repeat split.
  - unfold Client.deliver, Client.construct.
    pose proof (ClientFacts.listen_registers ch) as Hreg.
    destruct (Channel.listen ch) as [d ch'] eqn:E. simpl in *.
    now rewrite Hreg.
Qed.

Lemma proxy_drops_malformed_payload_witness :
  let c := Client.construct {| calls := []; listeners := [] |} in
  (Array_isArray (WOther (NString "oops")) = false /\
   Client.onDidChangeItemsOnMain (PObject (WOther (NString "oops"))) c = Ok c) /\
  (Array_isArray (WArray [("a", VString "1")]) = true /\
   exists c',
     Client.onDidChangeItemsOnMain (PObject (WArray [("a", VString "1")])) c = Ok c' /\
     onDidChangeItemsExternal c' = [[("a", VString "1")]]).
Proof.
  intros c. split.
  - split; [reflexivity|].
    exact (proj1 (@proxy_drops_malformed_payload (WOther (NString "oops")) c (channel c))
             eq_refl).
  - split; [reflexivity|].
    destruct (proj1 (proj2 (@proxy_drops_malformed_payload
                              (WArray [("a", VString "1")]) c (channel c))) eq_refl)
      as (l & c' & Hl & Hok & Hfired & _).
    exists c'. split; [exact Hok|].
    inversion Hl; subst l. exact Hfired.
Defined.

(** C9: [close] returns a resolved promise, issues no remote call and
    releases the Proxy's subscription, leaving the registry of the channel
    as it was before the Proxy subscribed; after one [close] or [dispose],
    any further sequence of [close] and [dispose] changes neither the
    channel nor the stored handle, and what the channel emits afterwards
    is not handled by the Proxy. *)
Theorem proxy_close_unsubscribes
  (ch : IChannel) (c : GlobalStorageDatabaseChannelClient)
  (op : Client.Teardown) (ops : list Client.Teardown) (e : Payload) :
  let c1 := Client.teardown c op in
  let cn := fold_left Client.teardown ops c1 in
  snd (Client.close c) = PromiseResolved /\
  channel (fst (Client.close (Client.construct ch))) = ch /\
  calls (channel c1) = calls (channel c) /\
  channel cn = channel c1 /\
  onDidChangeItemsOnMainListener cn = onDidChangeItemsOnMainListener c1 /\
  onDidChangeItemsExternal cn = onDidChangeItemsExternal c /\
  Client.deliver e cn = Ok cn.
Proof.
  cbv zeta.
  destruct (ClientFacts.teardown_again ops c op) as (Hc & Hl & He). cbv zeta in Hc, Hl, He.
  destruct (ClientFacts.teardown_effect c op) as (Hd & Hcalls & _). cbv zeta in Hd, Hcalls.
  split; [unfold Client.close; now destruct (dispose _ _)|].
  split.
  { unfold Client.close, Client.construct.
    pose proof (ClientFacts.unlisten_listen ch) as Hu.
    destruct (Channel.listen ch) as [d ch']. simpl in *. exact Hu. }
  split; [exact Hcalls|]. split; [exact Hc|]. split; [exact Hl|]. split; [exact He|].
  pose proof (ClientFacts.deliver_after_teardown e c op) as Hdel.
  unfold Client.deliver in *. rewrite Hl, Hc.
  destruct (onDidChangeItemsOnMainListener (Client.teardown c op)) as [d|]; [|reflexivity].
  destruct (Channel.registered d (channel (Client.teardown c op))) eqn:Hreg; [|reflexivity].
  exfalso.
  destruct (onDidChangeItemsOnMainListener c) as [h|]; simpl in Hd;
    inversion Hd as [[E1 E2]]; subst.
  rewrite E2, ClientFacts.unlisten_unregisters in Hreg. discriminate.
Qed.

(** ** Worked examples *)

(** Decoding a sequence with a repeated key: the last value wins, at the
    position of the first occurrence. *)
Example decode_duplicate_keys :
  serializableToMap [("a", VString "1"); ("b", VString "2"); ("a", VString "3")]
  = [("a", VString "3"); ("b", VString "2")].
Proof. reflexivity. Qed.

(** Two initializations in a row on an empty storage. *)
Example seeding_twice :
  let first := {| uuid := "id-1"; firstSessionNow := "Mon"; currentSessionNow := "Mon" |} in
  let second := {| uuid := "id-2"; firstSessionNow := "Tue"; currentSessionNow := "Tue" |} in
  items (initTelemetry (properties := telemetryKeys) second
           (initTelemetry (properties := telemetryKeys) first
              (mkStorage [] [] (fun _ => "ok"))))
  = [("telemetry.instanceId", VString "id-1");
     ("telemetry.firstSessionDate", VString "Mon");
     ("telemetry.lastSessionDate", VString "Mon");
     ("telemetry.currentSessionDate", VString "Tue")].
Proof. reflexivity. Qed.

(** A command the channel does not know is refused on the spot. *)
Example unknown_command :
  call 7 "dropItems" ArgUndefined (construct (mkStorage [] [] (fun _ => "ok")))
  = Throw "Call not found: dropItems".
Proof. reflexivity. Qed.

(** A Proxy that was closed and then disposed ignores what the channel
    emits, while a live one republishes it. *)
Example closed_proxy_is_deaf :
  let live := Client.construct {| calls := []; listeners := [4] |} in
  let gone := Client.dispose (fst (Client.close live)) in
  Client.deliver (PObject (WArray [("a", VString "1")])) gone = Ok gone /\
  listeners (channel gone) = [4] /\
  (exists live', Client.deliver (PObject (WArray [("a", VString "1")])) live = Ok live' /\
                 onDidChangeItemsExternal live' = [[("a", VString "1")]]).
Proof. simpl. repeat split. eexists. split; reflexivity. Qed.

(** An event name the channel does not know is refused as well. *)
Example unknown_event :
  listen "onDidClose" (construct (mkStorage [] [] (fun _ => "ok")))
  = Throw "Event not found: onDidClose".
Proof. reflexivity. Qed.

(** From a write on the owner side to the local event of a subscribed
    Proxy. *)
Example end_to_end :
  let gateway :=
    run (properties := telemetryKeys)
      [InInitialized InitResolved
         {| uuid := "u"; firstSessionNow := "Mon"; currentSessionNow := "Mon" |};
       InCall 1 "updateItems" (ArgRequest {| insert := Some [("k", VString "v")];
                                             delete := None |});
       InStorageChanged {| key := "k" |};
       InElapse 100]
      (construct (mkStorage [] [] (fun _ => "ok"))) in
  let proxy := Client.construct {| calls := []; listeners := [] |} in
  exists e proxy',
    onDidChangeItems gateway = [e] /\
    Client.deliver (transmit e) proxy = Ok proxy' /\
    onDidChangeItemsExternal proxy' = [[("k", VString "v")]].
Proof. simpl. eexists _, _. repeat split. Qed.

(** * Further properties of the channel *)

(** ** Dispatch on names *)

Section Dispatch.
Context {properties : WorkbenchCommonProperties}.

End Dispatch.



(** ** Order of service *)

Section Service.
Context {properties : WorkbenchCommonProperties}.

Lemma elapse_keeps_settled (dt : nat) (c : GlobalStorageDatabaseChannel) :
  settled (elapse dt c) = settled c /\
  storageMainService (elapse dt c) = storageMainService c.
Proof.
  unfold elapse. simpl. destruct (debouncer c) as [d|]; [|simpl; auto].
  destruct (Debounce.expire (clock c + dt) d) as [[events|] d']; [|simpl; auto].
  unfold onDebounced. destruct (Nat.eqb (length events) 0); simpl; auto.
Qed.

Lemma thenReady_callIds (id : nat) (r : Reaction) (c : GlobalStorageDatabaseChannel) :
  callIds (thenReady id r c) = callIds c ++ [id].
Proof.
  unfold callIds, thenReady. destruct (whenReady c) as [q|] eqn:Hq; simpl.
  - now rewrite map_app, app_assoc.
  - unfold execute. simpl. destruct (body r (storageMainService c)). simpl.
    rewrite Hq. simpl. now rewrite map_app, !app_nil_r.
Qed.

Lemma step_callIds (c : GlobalStorageDatabaseChannel) (i : Input) :
  callIds (step c i) = callIds c ++ acceptedIds [i].
Proof.
  destruct i as [id command arg|outcome env|e|op|dt]; unfold acceptedIds; simpl;
    rewrite ?app_nil_r.
  - unfold call.
    destruct (String.eqb command "getItems"); [apply thenReady_callIds|].
    destruct (String.eqb command "updateItems"); [apply thenReady_callIds|].
    destruct (String.eqb command "checkIntegrity"); [apply thenReady_callIds|].
    simpl. now rewrite app_nil_r.
  - unfold initialized. destruct (whenReady c) as [q|] eqn:Hq; [|reflexivity].
    unfold callIds.
    destruct (fold_execute_trace q (markInitialized (init outcome env c))) as (_ & Hw).
    rewrite Hw, fold_execute_settled, Hq. simpl.
    destruct outcome; simpl; now rewrite app_nil_r.
  - unfold storageChanged. destruct (debouncer c); reflexivity.
  - reflexivity.
  - unfold callIds. destruct (elapse_keeps dt c) as (Hw & _).
    destruct (elapse_keeps_settled dt c) as (Hs & _). now rewrite Hw, Hs.
Qed.

Lemma run_callIds (inputs : list Input) (c : GlobalStorageDatabaseChannel) :
  callIds (run inputs c) = callIds c ++ acceptedIds inputs.
Proof.
  revert c. induction inputs as [|i rest IH]; intros c.
  - simpl. now rewrite app_nil_r.
  - change (run (i :: rest) c) with (run rest (step c i)).
    rewrite IH, step_callIds, <- app_assoc. f_equal.
    unfold acceptedIds. simpl. now rewrite app_nil_r.
Qed.

Lemma thenReady_ready (id : nat) (r : Reaction) (c : GlobalStorageDatabaseChannel) :
  whenReady (thenReady id r c) = Fulfilled <-> whenReady c = Fulfilled.
Proof.
  unfold thenReady. destruct (whenReady c) as [q|] eqn:Hq.
  - simpl. split; discriminate.
  - destruct (execute_trace c (id, r)) as (_ & Hw). rewrite Hw, Hq. tauto.
Qed.

Lemma step_ready (c : GlobalStorageDatabaseChannel) (i : Input) :
  whenReady (step c i) = Fulfilled <->
  whenReady c = Fulfilled \/ isInitialized i = true.
Proof.
  destruct i as [id command arg|outcome env|e|op|dt]; simpl.
  - unfold call.
    destruct (String.eqb command "getItems");
      [rewrite thenReady_ready; intuition discriminate|].
    destruct (String.eqb command "updateItems");
      [rewrite thenReady_ready; intuition discriminate|].
    destruct (String.eqb command "checkIntegrity"); [rewrite thenReady_ready|];
      intuition discriminate.
  - unfold initialized. destruct (whenReady c) as [q|] eqn:Hq; [|tauto].
    destruct (fold_execute_trace q (markInitialized (init outcome env c))) as (_ & Hw).
    rewrite Hw. simpl. tauto.
  - unfold storageChanged. destruct (debouncer c); simpl; intuition discriminate.
  - intuition discriminate.
  - destruct (elapse_keeps dt c) as (Hw & _). rewrite Hw. intuition discriminate.
Qed.

Lemma run_ready (inputs : list Input) (c : GlobalStorageDatabaseChannel) :
  whenReady (run inputs c) = Fulfilled <->
  whenReady c = Fulfilled \/ existsb isInitialized inputs = true.
Proof.
  revert c. induction inputs as [|i rest IH]; intros c.
  - simpl. intuition discriminate.
  - change (run (i :: rest) c) with (run rest (step c i)).
    rewrite IH, step_ready. simpl. rewrite orb_true_iff. tauto.
Qed.

(** Before [whenReady] is fulfilled no call has been settled. *)
Lemma step_unsettled (c : GlobalStorageDatabaseChannel) (i : Input) :
  whenReady c = Fulfilled \/ settled c = [] ->
  whenReady (step c i) = Fulfilled \/ settled (step c i) = [].
Proof.
  intros [Hf|Hs]; [left; apply step_ready; auto|].
  destruct (whenReady c) as [q|] eqn:Hq; [|left; apply step_ready; auto].
  destruct i as [id command arg|outcome env|e|op|dt]; simpl.
  - right. unfold call, thenReady. rewrite Hq.
    destruct (String.eqb command "getItems"); [exact Hs|].
    destruct (String.eqb command "updateItems"); [exact Hs|].
    destruct (String.eqb command "checkIntegrity"); exact Hs.
  - left. apply (step_ready c (InInitialized outcome env)). auto.
  - right. unfold storageChanged. destruct (debouncer c); exact Hs.
  - right. exact Hs.
  - right. destruct (elapse_keeps_settled dt c) as (H & _). now rewrite H.
Qed.

Lemma run_unsettled (inputs : list Input) (c : GlobalStorageDatabaseChannel) :
  whenReady c = Fulfilled \/ settled c = [] ->
  whenReady (run inputs c) = Fulfilled \/ settled (run inputs c) = [].
Proof.
  revert c. induction inputs as [|i rest IH]; intros c Hc; [exact Hc|].
  apply (IH (step c i)). now apply step_unsettled.
Qed.

(** X3: over any sequence of inputs, the calls naming a known command
    are held back or settled in the order of their issue, none lost and
    none settled twice: the ids of the settled calls followed by the ids of
    the pending ones are the ids of the accepted calls.  Nothing is settled
    before the storage initialization settles, and nothing is held back
    after it. *)
Theorem calls_are_served_in_order (storage : StorageMainService) (inputs : list Input) :
  let c := run inputs (construct storage) in
  map fst (settled c) ++ map fst (pendingJobs (whenReady c)) = acceptedIds inputs /\
  (if existsb isInitialized inputs
   then pendingJobs (whenReady c) = [] /\ map fst (settled c) = acceptedIds inputs
   else settled c = [] /\ map fst (pendingJobs (whenReady c)) = acceptedIds inputs).
Proof.
  cbv zeta.
  pose proof (run_callIds inputs (construct storage)) as Hids.
  unfold callIds in Hids. simpl in Hids.
  split; [exact Hids|].
  pose proof (run_ready inputs (construct storage)) as Hready. simpl in Hready.
  destruct (existsb isInitialized inputs).
  - assert (Hf : whenReady (run inputs (construct storage)) = Fulfilled)
      by (apply Hready; auto).
    rewrite Hf in *. simpl in *. rewrite app_nil_r in Hids. auto.
  - destruct (run_unsettled inputs (construct storage)) as [Hf|Hs]; [right; reflexivity| |].
    + apply Hready in Hf. destruct Hf; discriminate.
    + rewrite Hs in *. auto.
Qed.
End Service.

(** ** Invariants of change propagation *)

Section Propagation.
Context {properties : WorkbenchCommonProperties}.

Lemma execute_frame (c : GlobalStorageDatabaseChannel) (job : nat * Reaction) :
  debouncer (execute c job) = debouncer c /\
  clock (execute c job) = clock c /\
  onDidChangeItems (execute c job) = onDidChangeItems c.
Proof. unfold execute. destruct (body (snd job) (storageMainService c)). simpl. auto. Qed.

Lemma fold_execute_frame (q : list (nat * Reaction)) (c : GlobalStorageDatabaseChannel) :
  debouncer (fold_left execute q c) = debouncer c /\
  clock (fold_left execute q c) = clock c /\
  onDidChangeItems (fold_left execute q c) = onDidChangeItems c.
Proof.
  revert c. induction q as [|job rest IH]; intros c; simpl; auto.
  destruct (IH (execute c job)) as (Hd & Hc & Hf).
  destruct (execute_frame c job) as (Hd1 & Hc1 & Hf1).
  rewrite Hd, Hc, Hf. auto.
Qed.

(** A call changes neither the debounced listener, nor the clock, nor the
    fired events, nor whether [whenReady] is fulfilled. *)
Lemma call_frame (id : nat) (command : string) (arg : Arg)
  (c : GlobalStorageDatabaseChannel) :
  let c' := step c (InCall id command arg) in
  debouncer c' = debouncer c /\ clock c' = clock c /\
  onDidChangeItems c' = onDidChangeItems c /\
  (whenReady c' = Fulfilled <-> whenReady c = Fulfilled).
Proof.
  cbv zeta.
  assert (Ht : forall r,
             debouncer (thenReady id r c) = debouncer c /\
             clock (thenReady id r c) = clock c /\
             onDidChangeItems (thenReady id r c) = onDidChangeItems c /\
             (whenReady (thenReady id r c) = Fulfilled <-> whenReady c = Fulfilled)).
  { intros r. pose proof (thenReady_ready id r c) as Hr.
    unfold thenReady in *. destruct (whenReady c) as [q|].
    - simpl. repeat split; try discriminate.
    - destruct (execute_frame c (id, r)) as (Hd & Hc & Hf). auto. }
  simpl. unfold call.
  destruct (String.eqb command "getItems"); [apply Ht|].
  destruct (String.eqb command "updateItems"); [apply Ht|].
  destruct (String.eqb command "checkIntegrity"); [apply Ht|].
  repeat split; auto.
Qed.

(** How time acts on the debounced listener. *)
Lemma elapse_cases (dt : nat) (c : GlobalStorageDatabaseChannel) :
  let c1 := withClock (clock c + dt) c in
  match debouncer c with
  | None => elapse dt c = c1
  | Some d =>
      match Debounce.handle d with
      | Some due =>
          if Nat.leb due (clock c + dt)
          then elapse dt c
               = match Debounce.output d with
                 | Some events => onDebounced events (withDebouncer (Some Debounce.idle) c1)
                 | None => withDebouncer (Some Debounce.idle) c1
                 end
          else elapse dt c = withDebouncer (Some d) c1
      | None => elapse dt c = withDebouncer (Some d) c1
      end
  end.
Proof.
  cbv zeta. unfold elapse. simpl.
  destruct (debouncer c) as [d|]; [|reflexivity].
  unfold Debounce.expire.
  destruct (Debounce.handle d) as [due|]; [|reflexivity].
  destruct (Nat.leb due (clock c + dt)); [|reflexivity].
  destruct (Debounce.output d); reflexivity.
Qed.

Lemma serializeEvents_good (events : list IStorageChangeEvent) (s : StorageMainService) :
  events <> [] -> goodEvent (serializeEvents events s).
Proof.
  intros Hne.
  destruct (SerializeFacts.serializeEvents_items events s) as (Hnd & Hkeys & _).
  split; [|exact Hnd].
  destruct events as [|e rest]; [contradiction|].
  intros Hnil. specialize (Hkeys (key e)). rewrite Hnil in Hkeys. simpl in Hkeys.
  apply Hkeys. now left.
Qed.

Lemma step_sane (c : GlobalStorageDatabaseChannel) (i : Input) :
  sane c -> sane (step c i).
Proof.
  intros (Hgood & Hdeb).
  destruct i as [id command arg|outcome env|e|op|dt].
  - destruct (call_frame id command arg c) as (Hd & Hc & Hf & Hw). cbv zeta in *.
    unfold sane. rewrite Hd, Hc, Hf. split; [exact Hgood|].
    destruct (debouncer c) as [d|].
    + destruct Hdeb as (Hr & Hcases). split; [now apply Hw | exact Hcases].
    + destruct Hdeb as (Hnil & Hnr). split; [exact Hnil | now rewrite Hw].
  - simpl. unfold initialized. destruct (whenReady c) as [q|] eqn:Hq.
    + destruct (fold_execute_frame q (markInitialized (init outcome env c)))
        as (Hd & Hc & Hf).
      destruct (fold_execute_trace q (markInitialized (init outcome env c))) as (_ & Hw).
      unfold sane. rewrite Hd, Hf, Hw.
      assert (Hfi : onDidChangeItems (markInitialized (init outcome env c))
                    = onDidChangeItems c) by (destruct outcome; reflexivity).
      assert (Hdi : debouncer (markInitialized (init outcome env c)) = Some Debounce.idle)
        by (destruct outcome; reflexivity).
      rewrite Hfi, Hdi. split; [exact Hgood|]. split; [reflexivity | now left].
    + unfold sane. rewrite Hq. auto.
  - simpl. unfold storageChanged. destruct (debouncer c) as [d|] eqn:Hd.
    + destruct Hdeb as (Hr & Hcases). unfold sane. simpl. split; [exact Hgood|].
      split; [exact Hr|]. right.
      exists (merger (Debounce.output d) e), (clock c + STORAGE_CHANGE_DEBOUNCE_TIME).
      split; [|split; [reflexivity | lia]].
      unfold merger. destruct (Debounce.output d) as [p|]; [destruct p|]; discriminate.
    + unfold sane. rewrite Hd. auto.
  - unfold sane. simpl. auto.
  - simpl. pose proof (elapse_cases dt c) as He. cbv zeta in He.
    destruct (debouncer c) as [d|] eqn:Hd.
    + destruct Hdeb as (Hr & [->|(events & due & Hne & -> & Hdue)]); simpl in He.
      * rewrite He. unfold sane. simpl. auto.
      * destruct (Nat.leb due (clock c + dt)) eqn:Hleb; rewrite He.
        -- unfold onDebounced. destruct events as [|ev rest]; [contradiction|]. simpl.
           unfold sane. simpl. split; [|split; [exact Hr | now left]].
           apply Forall_app. split; [exact Hgood|]. constructor; [|constructor].
           apply serializeEvents_good. discriminate.
        -- unfold sane. simpl. split; [exact Hgood|]. split; [exact Hr|]. right.
           exists events, due. split; [exact Hne|]. split; [reflexivity | lia].
    + rewrite He. unfold sane. simpl. rewrite Hd. auto.
Qed.

Lemma run_sane (inputs : list Input) (c : GlobalStorageDatabaseChannel) :
  sane c -> sane (run inputs c).
Proof.
  revert c. induction inputs as [|i rest IH]; intros c Hc; [exact Hc|].
  apply (IH (step c i)). now apply step_sane.
Qed.

Lemma construct_sane (storage : StorageMainService) : sane (construct storage).
Proof. unfold sane. simpl. split; [constructor|]. split; [reflexivity | discriminate]. Qed.

Lemma step_count (c : GlobalStorageDatabaseChannel) (i : Input) :
  sane c ->
  length (onDidChangeItems (step c i)) + backlog (step c i)
  <= length (onDidChangeItems c) + backlog c + length (rawKeys [i]).
Proof.
  intros (Hgood & Hdeb).
  destruct i as [id command arg|outcome env|e|op|dt].
  - destruct (call_frame id command arg c) as (Hd & _ & Hf & _). cbv zeta in *.
    unfold backlog. rewrite Hd, Hf. simpl. lia.
  - simpl. unfold initialized. destruct (whenReady c) as [q|] eqn:Hq; [|lia].
    destruct (fold_execute_frame q (markInitialized (init outcome env c))) as (Hd & _ & Hf).
    unfold backlog. rewrite Hd, Hf. destruct outcome; simpl; lia.
  - simpl. unfold storageChanged, backlog.
    destruct (debouncer c) as [d|] eqn:Hd; simpl; rewrite ?Hd;
      [destruct (Debounce.output d)|]; simpl; lia.
  - unfold backlog. simpl. lia.
  - simpl. pose proof (elapse_cases dt c) as He. cbv zeta in He. unfold backlog.
    destruct (debouncer c) as [d|] eqn:Hd.
    + destruct Hdeb as (Hr & [->|(events & due & Hne & -> & Hdue)]); simpl in He.
      * rewrite He. simpl. lia.
      * destruct (Nat.leb due (clock c + dt)); rewrite He.
        -- unfold onDebounced. destruct events as [|ev rest]; [contradiction|]. simpl.
           rewrite length_app. simpl. lia.
        -- simpl. lia.
    + rewrite He. simpl. rewrite Hd. lia.
Qed.

Lemma rawKeys_cons (i : Input) (rest : list Input) :
  rawKeys (i :: rest) = rawKeys [i] ++ rawKeys rest.
Proof. unfold rawKeys. simpl. now rewrite app_nil_r. Qed.

Lemma run_count (inputs : list Input) (c : GlobalStorageDatabaseChannel) :
  sane c ->
  length (onDidChangeItems (run inputs c)) + backlog (run inputs c)
  <= length (onDidChangeItems c) + backlog c + length (rawKeys inputs).
Proof.
  revert c. induction inputs as [|i rest IH]; intros c Hc; [simpl; lia|].
  change (run (i :: rest) c) with (run rest (step c i)).
  pose proof (IH (step c i) (step_sane i Hc)) as H1.
  pose proof (step_count i Hc) as H2.
  rewrite rawKeys_cons, length_app. lia.
Qed.




End Propagation.

Section PropagationResults.
Context {properties : WorkbenchCommonProperties}.

(** X4: [registerListeners] runs only in the continuation of [init], so
    raw change events the storage service signals while the channel is
    initializing are not recorded: nothing is fired for them and nothing is
    held, neither then nor after the initialization, however long one
    waits. *)
Theorem changes_before_initialization_are_dropped
  (storage : StorageMainService) (pre : list Input)
  (outcome : InitOutcome) (env : TelemetryEnv) (dt : nat) :
  existsb isInitialized pre = false ->
  let c := run pre (construct storage) in
  let c' := run [InInitialized outcome env; InElapse dt] c in
  onDidChangeItems c = [] /\ heldKeys c = [] /\
  onDidChangeItems c' = [] /\ heldKeys c' = [].
Proof.
  intros Hpre c c'.
  assert (Hsane : sane c) by apply run_sane, construct_sane.
  assert (Hnr : whenReady c <> Fulfilled).
  { intros Hf. apply run_ready in Hf. simpl in Hf. destruct Hf as [Hf|Hf]; congruence. }
  destruct Hsane as (_ & Hdeb).
  destruct (debouncer c) as [d|] eqn:Hd; [destruct Hdeb; contradiction|].
  destruct Hdeb as (Hfired & _).
  assert (Hheld : heldKeys c = []) by (unfold heldKeys; now rewrite Hd).
  split; [exact Hfired|]. split; [exact Hheld|].
  destruct (whenReady c) as [q|] eqn:Hq; [|contradiction].
  assert (Hinit : debouncer (initialized outcome env c) = Some Debounce.idle /\
                  onDidChangeItems (initialized outcome env c) = []).
  { unfold initialized. rewrite Hq.
    destruct (fold_execute_frame q (markInitialized (init outcome env c))) as (H1 & _ & H2).
    rewrite H1, H2. destruct outcome; simpl; auto. }
  destruct Hinit as (Hdi & Hfi).
  assert (Hc' : c' = elapse dt (initialized outcome env c)) by reflexivity.
  pose proof (elapse_cases dt (initialized outcome env c)) as He. cbv zeta in He.
  rewrite Hdi in He. simpl in He. rewrite Hc', He. simpl. auto.
Qed.


(** X5: whatever the owner process receives, every event the Gateway
    fires has at least one item and no key twice, and the Gateway never
    fires more events than the storage service signalled raw changes. *)
Theorem fired_events_are_well_formed (storage : StorageMainService) (inputs : list Input) :
  let c := run inputs (construct storage) in
  Forall (fun e => changed e <> [] /\ NoDup (map fst (changed e))) (onDidChangeItems c) /\
  length (onDidChangeItems c) <= length (rawKeys inputs).
Proof.
  cbv zeta. split.
  - apply (run_sane inputs (construct_sane storage)).
  - pose proof (run_count inputs (construct_sane storage)) as H.
    change (onDidChangeItems (construct storage)) with (@nil ISerializableItemsChangeEvent) in H.
    change (backlog (construct storage)) with 0 in H. simpl in H. lia.
Qed.


End PropagationResults.

Lemma changes_before_initialization_are_dropped_witness :
  let storage := mkStorage [] [] (fun _ => "ok") in
  let pre := [InStorage (CallStore "a" (VString "1")); InStorageChanged {| key := "a" |};
              InElapse 500] in
  let env := {| uuid := "u"; firstSessionNow := "Mon"; currentSessionNow := "Mon" |} in
  existsb isInitialized pre = false /\
  onDidChangeItems
    (run (properties := telemetryKeys) [InInitialized InitResolved env; InElapse 500]
       (run (properties := telemetryKeys) pre (construct storage))) = [].
Proof.
  intros storage pre env.
  assert (Hpre : existsb isInitialized pre = false) by reflexivity.
  destruct (@changes_before_initialization_are_dropped telemetryKeys storage pre
              InitResolved env 500 Hpre) as (_ & _ & H & _).
  exact (conj Hpre H).
Defined.


(** ** What a batch update leaves in the storage *)

Module LookupFacts.
Lemma get_set (V : Type) (k k' : Key) (v : V) (m : JsMap.t V) :
  JsMap.get k (JsMap.set k' v m) = if String.eqb k k' then Some v else JsMap.get k m.
Proof.
  destruct (String.eqb_spec k k') as [->|Hne].
  - apply JsMapFacts.get_set_same.
  - apply JsMapFacts.get_set_other. congruence.
Qed.

Lemma get_delete (V : Type) (k k' : Key) (m : JsMap.t V) :
  JsMap.get k (JsMap.delete k' m) = if String.eqb k k' then None else JsMap.get k m.
Proof.
  destruct (String.eqb_spec k k') as [->|Hne].
  - apply JsMapFacts.get_delete_same.
  - apply JsMapFacts.get_delete_other. congruence.
Qed.

Lemma get_app (V : Type) (k : Key) (a b : JsMap.t V) :
  JsMap.get k (a ++ b)
  = match JsMap.get k a with Some v => Some v | None => JsMap.get k b end.
Proof.
  induction a as [|[k0 v0] rest IH]; simpl; auto.
  destruct (String.eqb k k0); auto.
Qed.

(** After a run of [set]s a key holds the value of its last [set]. *)
Lemma get_fold_set (V : Type) (k : Key) (l : list (Key * V)) (m : JsMap.t V) :
  JsMap.get k (fold_left (fun items kv => JsMap.set (fst kv) (snd kv) items) l m)
  = match JsMap.get k (rev l) with Some v => Some v | None => JsMap.get k m end.
Proof.
  revert m. induction l as [|[k' v] rest IH]; intros m; simpl; auto.
  rewrite IH, get_app, get_set. simpl.
  destruct (JsMap.get k (rev rest)); auto.
  destruct (String.eqb k k'); auto.
Qed.

Lemma get_fold_delete (V : Type) (k : Key) (l : list Key) (m : JsMap.t V) :
  JsMap.get k (fold_left (fun items key => JsMap.delete key items) l m)
  = if existsb (String.eqb k) l then None else JsMap.get k m.
Proof.
  revert m. induction l as [|k' rest IH]; intros m; simpl; auto.
  rewrite IH, get_delete.
  destruct (String.eqb k k'), (existsb (String.eqb k) rest); reflexivity.
Qed.

Lemma items_fold_store (l : list Item) (s : StorageMainService) :
  items (fold_left (fun s kv => Storage.store (fst kv) (snd kv) s) l s)
  = fold_left (fun items kv => JsMap.set (fst kv) (snd kv) items) l (items s).
Proof. revert s. induction l as [|kv rest IH]; intros s; simpl; [reflexivity | apply IH]. Qed.

Lemma items_fold_remove (l : list Key) (s : StorageMainService) :
  items (fold_left (fun s key => Storage.remove key s) l s)
  = fold_left (fun items key => JsMap.delete key items) l (items s).
Proof. revert s. induction l as [|k rest IH]; intros s; simpl; [reflexivity | apply IH]. Qed.

Lemma applyUpdate_get (r : ISerializableUpdateRequest) (s : StorageMainService) (k : Key) :
  JsMap.get k (items (applyUpdate r s))
  = if existsb (String.eqb k) (deleted r) then None
    else match JsMap.get k (rev (inserted r)) with
         | Some v => Some v
         | None => JsMap.get k (items s)
         end.
Proof.
  unfold applyUpdate, deleted, inserted.
  destruct (delete r) as [del|], (insert r) as [ins|]; simpl;
    rewrite ?items_fold_remove, ?get_fold_delete, ?items_fold_store, ?get_fold_set;
    reflexivity.
Qed.

(** In a map with pairwise different keys, lookup does not depend on the
    order of the entries. *)
Lemma get_rev (V : Type) (k : Key) (m : JsMap.t V) :
  JsMap.wf m -> JsMap.get k (rev m) = JsMap.get k m.
Proof.
  intros Hwf.
  assert (Hwfr : JsMap.wf (rev m)).
  { unfold JsMap.wf, JsMap.keys in *. rewrite map_rev. now apply NoDup_rev. }
  destruct (JsMap.get k (rev m)) as [v|] eqn:Hr.
  - apply SerializeFacts.entry_get in Hr. apply in_rev in Hr.
    symmetry. now apply SerializeFacts.get_entry.
  - symmetry. apply JsMapFacts.get_None_keys. apply JsMapFacts.get_None_keys in Hr.
    intros Hin. apply Hr. unfold JsMap.keys in *. rewrite map_rev. now apply in_rev in Hin.
Qed.
End LookupFacts.

(** X7: after the Gateway's [updateItems] a key of the delete list is
    absent; any other key holds the value of its last item in the insert
    list, or what it held before when the insert list does not name it.
    Read with a fallback, an absent key yields the fallback. *)
Theorem updateItems_lookup
  (r : ISerializableUpdateRequest) (s : StorageMainService) (k : Key) (fallback : Value) :
  let s' := fst (body (RUpdateItems (ArgRequest r)) s) in
  JsMap.get k (items s')
  = (if existsb (String.eqb k) (deleted r) then None
     else match JsMap.get k (rev (inserted r)) with
          | Some v => Some v
          | None => JsMap.get k (items s)
          end) /\
  Storage.get k fallback s'
  = (if existsb (String.eqb k) (deleted r) then fallback
     else match JsMap.get k (rev (inserted r)) with
          | Some v => v
          | None => Storage.get k fallback s
          end).
Proof.
  cbv zeta. simpl. unfold Storage.get. rewrite LookupFacts.applyUpdate_get.
  split; [reflexivity|].
  destruct (existsb (String.eqb k) (deleted r)); [reflexivity|].
  destruct (JsMap.get k (rev (inserted r))); reflexivity.
Qed.

(** X8: executing the same update request a second time changes no
    lookup: what a key holds after the replay is what it held after the
    first execution. *)
Theorem updateItems_replay_is_harmless
  (r : ISerializableUpdateRequest) (s : StorageMainService) (k : Key) :
  JsMap.get k (items (applyUpdate r (applyUpdate r s)))
  = JsMap.get k (items (applyUpdate r s)).
Proof.
  rewrite !LookupFacts.applyUpdate_get.
  destruct (existsb (String.eqb k) (deleted r)); [reflexivity|].
  destruct (JsMap.get k (rev (inserted r))); reflexivity.
Qed.

(** ** From the Proxy to the storage and back *)

Module ProtocolFacts.
Lemma updateItems_cases (request : IUpdateRequest) (c : GlobalStorageDatabaseChannelClient) :
  (emptyRequest request /\ Client.updateItems request c = (c, PromiseResolved)) \/
  (~ emptyRequest request /\
   Client.updateItems request c
   = (mkClient (Channel.call "updateItems" (ArgRequest (serializableRequest request))
                  (channel c))
        (onDidChangeItemsOnMainListener c) (isDisposed c) (onDidChangeItemsExternal c),
      PromiseOfCall (length (calls (channel c))))).
Proof.
  unfold emptyRequest, Client.updateItems, serializableRequest.
  destruct request as [[m|] [s|]]; simpl.
  - destruct m as [|kv m'], s as [|k s']; simpl.
    + left. auto.
    + right. split; [intros [_ [H|H]]; discriminate | reflexivity].
    + right. split; [intros [[H|H] _]; discriminate | reflexivity].
    + right. split; [intros [[H|H] _]; discriminate | reflexivity].
  - destruct m as [|kv m']; simpl.
    + left. auto.
    + right. split; [intros [[H|H] _]; discriminate | reflexivity].
  - destruct s as [|k s']; simpl.
    + left. auto.
    + right. split; [intros [_ [H|H]]; discriminate | reflexivity].
  - left. auto.
Qed.

Lemma inserted_serializable (request : IUpdateRequest) :
  inserted (serializableRequest request) = requestedInserts request.
Proof.
  unfold inserted, serializableRequest, requestedInserts. simpl.
  destruct (request_insert request); simpl; [apply mapToSerializable_entries | reflexivity].
Qed.

Lemma deleted_serializable (request : IUpdateRequest) :
  deleted (serializableRequest request) = requestedDeletes request.
Proof.
  unfold deleted, serializableRequest, requestedDeletes. simpl.
  destruct (request_delete request); simpl; [apply values_elements | reflexivity].
Qed.






End ProtocolFacts.

(** X9: a non-empty update request handed to the Proxy goes out as one
    [updateItems] call whose execution by the Gateway resolves and leaves
    the storage as the request says: the keys of its delete set absent, the
    keys of its insert map with the values of that map, every other key as
    before. *)
Theorem proxy_update_reaches_storage
  (request : IUpdateRequest) (proxy : GlobalStorageDatabaseChannelClient)
  (s : StorageMainService) (k : Key) :
  JsMap.wf (requestedInserts request) ->
  ~ emptyRequest request ->
  exists arg,
    calls (channel (fst (Client.updateItems request proxy)))
    = calls (channel proxy) ++ [ChannelCall "updateItems" arg] /\
    snd (body (RUpdateItems arg) s) = Resolved ReplyVoid /\
    JsMap.get k (items (fst (body (RUpdateItems arg) s)))
    = if existsb (String.eqb k) (requestedDeletes request) then None
      else match JsMap.get k (requestedInserts request) with
           | Some v => Some v
           | None => JsMap.get k (items s)
           end.
Proof.
  intros Hwf Hne.
  destruct (ProtocolFacts.updateItems_cases request proxy) as [(He & _)|(_ & Hsend)];
    [contradiction|].
  exists (ArgRequest (serializableRequest request)).
  rewrite Hsend. split; [reflexivity|]. split; [reflexivity|].
  change (fst (body (RUpdateItems (ArgRequest (serializableRequest request))) s))
    with (applyUpdate (serializableRequest request) s).
  rewrite LookupFacts.applyUpdate_get.
  rewrite ProtocolFacts.inserted_serializable, ProtocolFacts.deleted_serializable.
  pose proof (LookupFacts.get_rev k Hwf) as Hrev.
  destruct (existsb (String.eqb k) (requestedDeletes request)); [reflexivity|].
  exact (f_equal (fun o => match o with
                           | Some v => Some v
                           | None => JsMap.get k (items s)
                           end) Hrev).
Qed.

Lemma proxy_update_reaches_storage_witness :
  let request := {| request_insert := Some [("k", VString "v"); ("d", VString "w")];
                    request_delete := Some ["d"] |} in
  let proxy := Client.construct {| calls := []; listeners := [] |} in
  let s := mkStorage [("d", VString "old")] [] (fun _ => "ok") in
  (JsMap.wf (requestedInserts request) /\ ~ emptyRequest request) /\
  exists arg,
    calls (channel (fst (Client.updateItems request proxy)))
    = [ChannelCall "updateItems" arg] /\
    JsMap.get "d" (items (fst (body (RUpdateItems arg) s))) = None.
Proof.
  intros request proxy s.
  assert (Hwf : JsMap.wf (requestedInserts request)).
  { unfold JsMap.wf. simpl. repeat constructor; simpl; intuition discriminate. }
  assert (Hne : ~ emptyRequest request)
    by (unfold emptyRequest; simpl; intros [[H|H] _]; discriminate).
  split; [exact (conj Hwf Hne)|].
  destruct (@proxy_update_reaches_storage request proxy s "d" Hwf Hne)
    as (arg & Hcalls & _ & Hget).
  exists arg. exact (conj Hcalls Hget).
Defined.


(** X11: the event the Gateway serializes for a batch of raw events,
    delivered to a subscribed Proxy, is republished as exactly one local
    event; its mapping holds, for every key of the batch and for no other
    key, what a [get] without fallback read from the storage. *)
Theorem change_event_reaches_proxy
  (events : list IStorageChangeEvent) (s : StorageMainService) (ch : IChannel) (k : Key) :
  exists proxy' m,
    Client.deliver (transmit (serializeEvents events s)) (Client.construct ch) = Ok proxy' /\
    onDidChangeItemsExternal proxy' = [m] /\
    JsMap.wf m /\
    JsMap.get k m
    = if existsb (String.eqb k) (map key events)
      then Some (Storage.get k VUndefined s) else None.
Proof.
  set (read := fun k => Storage.get k VUndefined s).
  set (m := fold_left (collectWith read) events JsMap.empty).
  assert (Hwf : JsMap.wf m) by (apply SerializeFacts.collect_wf; constructor).
  assert (Hsent : changed (serializeEvents events s) = m).
  { unfold serializeEvents. simpl. apply mapToSerializable_entries. }
  assert (Hdecoded : serializableToMap m = m).
  { unfold serializableToMap. now rewrite JsMapFacts.fold_set_fresh. }
  pose proof (ClientFacts.listen_registers ch) as Hreg.
  unfold transmit, Client.deliver, Client.construct. rewrite Hsent.
  destruct (Channel.listen ch) as [d ch'] eqn:E. simpl in Hreg. simpl.
  rewrite Hreg. simpl. rewrite Hdecoded.
  eexists _, m. split; [reflexivity|]. split; [reflexivity|]. split; [exact Hwf|].
  destruct (existsb (String.eqb k) (map key events)) eqn:Hex.
  - apply existsb_exists in Hex. destruct Hex as (k' & Hin & Heq).
    apply String.eqb_eq in Heq. subst k'. now apply SerializeFacts.collect_get.
  - apply JsMapFacts.get_None_keys. intros Hin.
    apply SerializeFacts.collect_keys in Hin. destruct Hin as [[]|Hin].
    assert (Htrue : existsb (String.eqb k) (map key events) = true).
    { apply existsb_exists. exists k. split; [exact Hin | apply String.eqb_refl]. }
    congruence.
Qed.

(** ** Footprint of the identity seeding *)

Section Footprint.
Context {properties : WorkbenchCommonProperties}.

Lemma has_set_same (k : Key) (v : Value) (m : JsMap.t Value) :
  JsMap.has k (JsMap.set k v m) = true.
Proof. unfold JsMap.has. now rewrite JsMapFacts.get_set_same. Qed.

Lemma has_set_keeps (k k' : Key) (v : Value) (m : JsMap.t Value) :
  JsMap.has k m = true -> JsMap.has k (JsMap.set k' v m) = true.
Proof.
  unfold JsMap.has. rewrite LookupFacts.get_set.
  destruct (String.eqb k k'); auto.
Qed.

Lemma has_seeded (k : Key) (v : Value) (u : StorageMainService) :
  JsMap.has k
    (items (if isUndefined (Storage.get k VUndefined u) then Storage.store k v u else u))
  = true.
Proof.
  destruct (isUndefined (Storage.get k VUndefined u)) eqn:E; simpl.
  - apply has_set_same.
  - unfold Storage.get in E. unfold JsMap.has.
    destruct (JsMap.get k (items u)); [reflexivity | discriminate].
Qed.

Lemma has_seeded_keeps (k k' : Key) (v : Value) (b : bool) (u : StorageMainService) :
  JsMap.has k (items u) = true ->
  JsMap.has k (items (if b then Storage.store k' v u else u)) = true.
Proof. intros H. destruct b; simpl; [now apply has_set_keeps | exact H]. Qed.

Lemma get_seeded_frame (k k' : Key) (v : Value) (b : bool) (u : StorageMainService) :
  k' <> k ->
  JsMap.get k (items (if b then Storage.store k' v u else u)) = JsMap.get k (items u).
Proof.
  intros Hne. destruct b; simpl; [|reflexivity]. now apply JsMapFacts.get_set_other.
Qed.

(** X12: the identity seeding reads and writes the four seed keys only:
    every other key holds afterwards what it held before; the four seed
    keys are all present afterwards; the seeding makes between two and four
    calls on the storage service, each a [store] on a seed key, and never a
    [remove]. *)
Theorem initTelemetry_footprint (env : TelemetryEnv) (s : StorageMainService) (k : Key) :
  ~ In k seedKeys ->
  let s' := initTelemetry env s in
  JsMap.get k (items s') = JsMap.get k (items s) /\
  Forall (fun key => JsMap.has key (items s') = true) seedKeys /\
  exists made,
    journal s' = journal s ++ made /\
    Forall (fun c => exists key v, c = CallStore key v /\ In key seedKeys) made /\
    2 <= length made <= 4.
Proof.
  intros Hk. cbv zeta. unfold seedKeys in *. simpl in Hk.
  assert (Hi : instanceStorageKey <> k) by tauto.
  assert (Hf : firstSessionDateStorageKey <> k) by tauto.
  assert (Hl : lastSessionDateStorageKey <> k) by tauto.
  assert (Hc : currentSessionDateStorageKey <> k) by tauto.
  split; [|split].
  - unfold initTelemetry; cbv zeta. simpl.
    rewrite (JsMapFacts.get_set_other _ _ Hc), (JsMapFacts.get_set_other _ _ Hl).
    now rewrite (get_seeded_frame _ _ _ Hf), (get_seeded_frame _ _ _ Hi).
  - unfold initTelemetry; cbv zeta. simpl. repeat constructor.
    + apply has_set_keeps, has_set_keeps, has_seeded_keeps, has_seeded.
    + apply has_set_keeps, has_set_keeps, has_seeded.
    + apply has_set_keeps, has_set_same.
    + apply has_set_same.
  - unfold initTelemetry; cbv zeta.
    destruct (isUndefined (Storage.get instanceStorageKey VUndefined s)).
    + destruct (isUndefined (Storage.get firstSessionDateStorageKey VUndefined _)); simpl;
        rewrite <- !app_assoc; simpl; eexists; (split; [reflexivity|]);
        (split; [|simpl; lia]); repeat constructor; eexists _, _; simpl; eauto 6.
    + destruct (isUndefined (Storage.get firstSessionDateStorageKey VUndefined _)); simpl;
        rewrite <- ?app_assoc; simpl; eexists; (split; [reflexivity|]);
        (split; [|simpl; lia]); repeat constructor; eexists _, _; simpl; eauto 6.
Qed.
End Footprint.

Lemma initTelemetry_footprint_witness :
  let env := {| uuid := "u"; firstSessionNow := "Mon"; currentSessionNow := "Mon" |} in
  let s := mkStorage [("theme", VString "dark")] [] (fun _ => "ok") in
  ~ In "theme" (seedKeys (properties := telemetryKeys)) /\
  JsMap.get "theme" (items (initTelemetry (properties := telemetryKeys) env s))
  = Some (VString "dark").
Proof.
  intros env s.
  assert (Hk : ~ In "theme" (seedKeys (properties := telemetryKeys)))
    by (simpl; intuition discriminate).
  exact (conj Hk (proj1 (@initTelemetry_footprint telemetryKeys env s "theme" Hk))).
Defined.

(** ** Order of the items of a change event *)

Module OrderFacts.
Lemma filter_conj (A : Type) (P Q : A -> bool) (l : list A) :
  filter P (filter Q l) = filter (fun x => Q x && P x) l.
Proof.
  induction l as [|x rest IH]; simpl; auto.
  destruct (Q x); simpl; [destruct (P x)|]; now rewrite IH.
Qed.

Lemma keys_after_set (V : Type) (k : Key) (v : V) (m : JsMap.t V) :
  JsMap.keys (JsMap.set k v m)
  = if existsb (String.eqb k) (JsMap.keys m) then JsMap.keys m else JsMap.keys m ++ [k].
Proof.
  induction m as [|[k0 v0] rest IH]; simpl; auto.
  destruct (String.eqb k k0); simpl; [reflexivity|].
  rewrite IH. destruct (existsb (String.eqb k) (JsMap.keys rest)); reflexivity.
Qed.

(** The keys not yet in [seen]. *)
Lemma collect_order (read : Key -> Value) (events : list IStorageChangeEvent)
  (acc : JsMap.t Value) :
  JsMap.keys (fold_left (collectWith read) events acc)
  = JsMap.keys acc
    ++ filter (fun k => negb (existsb (String.eqb k) (JsMap.keys acc)))
         (firstOccurrences (map key events)).
Proof.
  revert acc. induction events as [|e rest IH]; intros acc; simpl.
  - now rewrite app_nil_r.
  - rewrite IH. unfold collectWith. rewrite keys_after_set.
    destruct (existsb (String.eqb (key e)) (JsMap.keys acc)) eqn:Hin; simpl.
    + f_equal. rewrite filter_conj. apply filter_ext. intros k.
      destruct (String.eqb_spec k (key e)) as [->|Hne]; simpl; [now rewrite Hin | reflexivity].
    + rewrite <- app_assoc. simpl. f_equal. f_equal.
      rewrite filter_conj. apply filter_ext. intros k.
      rewrite existsb_app. simpl. rewrite orb_false_r, negb_orb.
      rewrite (String.eqb_sym k (key e)). apply andb_comm.
Qed.
End OrderFacts.

(** X13: the items of a serialized change event come in the order in
    which their keys first occur in the batch of raw events. *)
Theorem serializeEvents_order (events : list IStorageChangeEvent) (s : StorageMainService) :
  map fst (changed (serializeEvents events s)) = firstOccurrences (map key events) /\
  length (changed (serializeEvents events s)) <= length events.
Proof.
  assert (Hkeys : map fst (changed (serializeEvents events s))
                  = firstOccurrences (map key events)).
  { unfold serializeEvents. simpl. rewrite mapToSerializable_entries.
    pose proof (OrderFacts.collect_order (fun k => Storage.get k VUndefined s) events
                  JsMap.empty) as H.
    simpl in H. unfold JsMap.keys in H.
    change (fun items event => JsMap.set (key event) (Storage.get (key event) VUndefined s) items)
      with (collectWith (fun k => Storage.get k VUndefined s)).
    rewrite H.
    clear H. generalize (firstOccurrences (map key events)). intros l.
    induction l as [|k rest IH]; simpl; [reflexivity | now rewrite IH]. }
  split; [exact Hkeys|].
  assert (Hlen : length (changed (serializeEvents events s))
                 = length (firstOccurrences (map key events)))
    by (rewrite <- Hkeys; symmetry; apply length_map).
  assert (Hle : forall l, length (firstOccurrences l) <= length l).
  { induction l as [|k rest IH]; simpl; [lia|].
    apply le_n_S. eapply Nat.le_trans; [apply filter_length_le | exact IH]. }
  rewrite Hlen. specialize (Hle (map key events)). rewrite length_map in Hle. exact Hle.
Qed.

(** ** Operations that do not write *)

Section Reads.
Context {properties : WorkbenchCommonProperties}.

Lemma step_no_write (c : GlobalStorageDatabaseChannel) (i : Input) :
  asksNoWrite i = true -> storageMainService (step c i) = storageMainService c.
Proof.
  destruct i as [id command arg|outcome env|e|op|dt]; simpl; try discriminate.
  - intros Hcmd. unfold call, thenReady.
    destruct (String.eqb command "getItems").
    { destruct (whenReady c); reflexivity. }
    destruct (String.eqb command "updateItems"); [discriminate|].
    destruct (String.eqb command "checkIntegrity"); [|reflexivity].
    destruct (whenReady c); reflexivity.
  - intros _. unfold storageChanged. destruct (debouncer c); reflexivity.
  - intros _. apply elapse_keeps_settled.
Qed.

(** X14: [getItems], [checkIntegrity], calls of unknown commands, raw
    change events and the firing of the debounced listener never write:
    over any sequence of such inputs the storage service keeps its mapping
    and receives no call, on a channel in any state. *)
Theorem reads_leave_storage_alone (c : GlobalStorageDatabaseChannel) (inputs : list Input) :
  forallb asksNoWrite inputs = true ->
  storageMainService (run inputs c) = storageMainService c.
Proof.
  revert c. induction inputs as [|i rest IH]; intros c Hall; [reflexivity|].
  simpl in Hall. apply andb_true_iff in Hall. destruct Hall as (Hi & Hrest).
  change (run (i :: rest) c) with (run rest (step c i)).
  rewrite (IH _ Hrest). now apply step_no_write.
Qed.
End Reads.

Lemma reads_leave_storage_alone_witness :
  let env := {| uuid := "u"; firstSessionNow := "Mon"; currentSessionNow := "Mon" |} in
  let c := run (properties := telemetryKeys) [InInitialized InitResolved env]
             (construct (mkStorage [("a", VString "1")] [] (fun _ => "ok"))) in
  let inputs := [InCall 1 "getItems" ArgUndefined; InStorageChanged {| key := "a" |};
                 InCall 2 "checkIntegrity" (ArgBoolean true); InElapse 100;
                 InCall 3 "dropItems" ArgUndefined] in
  forallb asksNoWrite inputs = true /\
  storageMainService (run (properties := telemetryKeys) inputs c) = storageMainService c.
Proof.
  intros env c inputs.
  assert (H : forallb asksNoWrite inputs = true) by reflexivity.
  exact (conj H (@reads_leave_storage_alone telemetryKeys c inputs H)).
Defined.

(** ** Life of a Proxy *)

Module LifeFacts.
Lemma perform_listeners (c : GlobalStorageDatabaseChannelClient) (op : ProxyOp) :
  unsubscribed c ->
  unsubscribed (perform c op) /\
  onDidChangeItemsExternal (perform c op) = onDidChangeItemsExternal c.
Proof.
  unfold unsubscribed. intros Hc.
  destruct op as [|request|full| |]; simpl.
  - auto.
  - destruct (ProtocolFacts.updateItems_cases request c) as [(_ & ->)|(_ & ->)]; simpl; auto.
  - auto.
  - unfold Client.close. destruct (onDidChangeItemsOnMainListener c) as [d|]; simpl; auto.
    split; [apply ClientFacts.unlisten_unregisters | reflexivity].
  - unfold Client.dispose. destruct (onDidChangeItemsOnMainListener c) as [d|]; simpl; auto.
    split; [apply ClientFacts.unlisten_unregisters | reflexivity].
Qed.

Lemma teardown_unsubscribed (c : GlobalStorageDatabaseChannelClient) (op : Client.Teardown) :
  unsubscribed (Client.teardown c op).
Proof.
  unfold unsubscribed.
  destruct op; unfold Client.teardown, Client.close, Client.dispose;
    destruct (onDidChangeItemsOnMainListener c) as [d|]; simpl; auto;
    apply ClientFacts.unlisten_unregisters.
Qed.

Lemma receiveAll_silent (inputs : list ProxyInput) (c : GlobalStorageDatabaseChannelClient) :
  unsubscribed c ->
  exists c',
    receiveAll inputs c = Ok c' /\ unsubscribed c' /\
    onDidChangeItemsExternal c' = onDidChangeItemsExternal c.
Proof.
  revert c. induction inputs as [|i rest IH]; intros c Hc; simpl.
  - exists c. auto.
  - destruct i as [op|e]; simpl.
    + destruct (@perform_listeners c op Hc) as (Hu & He).
      destruct (IH _ Hu) as (c' & Hr & Hu' & He').
      exists c'. rewrite Hr, He', He. auto.
    + assert (Hd : Client.deliver e c = Ok c).
      { unfold Client.deliver. unfold unsubscribed in Hc.
        destruct (onDidChangeItemsOnMainListener c); [now rewrite Hc | reflexivity]. }
      rewrite Hd. apply IH, Hc.
Qed.

Lemma deliver_live (w : Wire) (c : GlobalStorageDatabaseChannelClient) (d : IDisposable) :
  onDidChangeItemsOnMainListener c = Some d ->
  Channel.registered d (channel c) = true ->
  exists c',
    Client.deliver (PObject w) c = Ok c' /\
    onDidChangeItemsOnMainListener c' = Some d /\
    channel c' = channel c /\
    onDidChangeItemsExternal c' = onDidChangeItemsExternal c ++ decodedArrays [w].
Proof.
  intros Hl Hr. unfold Client.deliver. rewrite Hl, Hr.
  destruct w as [l|v]; simpl.
  - eexists. split; [reflexivity|]. simpl. auto.
  - exists c. rewrite app_nil_r. auto.
Qed.

Lemma deliver_all_live (payloads : list Wire) (c : GlobalStorageDatabaseChannelClient)
  (d : IDisposable) :
  onDidChangeItemsOnMainListener c = Some d ->
  Channel.registered d (channel c) = true ->
  exists c',
    receiveAll (map (fun w => Emit (PObject w)) payloads) c = Ok c' /\
    channel c' = channel c /\
    onDidChangeItemsExternal c' = onDidChangeItemsExternal c ++ decodedArrays payloads.
Proof.
  revert c. induction payloads as [|w rest IH]; intros c Hl Hr.
  - exists c. simpl. rewrite app_nil_r. auto.
  - destruct (@deliver_live w c d Hl Hr) as (c1 & Hd & Hl1 & Hc1 & He1).
    assert (Hr1 : Channel.registered d (channel c1) = true) by now rewrite Hc1.
    destruct (IH c1 Hl1 Hr1) as (c' & Hall & Hc' & He').
    exists c'. simpl receiveAll. simpl receive. rewrite Hd, Hall.
    split; [reflexivity|]. split; [congruence|].
    rewrite He', He1, <- app_assoc. f_equal.
    unfold decodedArrays. simpl. now rewrite app_nil_r.
Qed.
End LifeFacts.

(** X15: once a Proxy has been closed or disposed, nothing makes it fire
    again and no delivery throws: over any further sequence of operations
    and of payloads emitted by the channel, well-formed or not, the run
    completes and the list of local events is what it was. *)
Theorem closed_proxy_stays_silent
  (c : GlobalStorageDatabaseChannelClient) (op : Client.Teardown)
  (inputs : list ProxyInput) :
  exists c',
    receiveAll inputs (Client.teardown c op) = Ok c' /\
    onDidChangeItemsExternal c' = onDidChangeItemsExternal c.
Proof.
  destruct (@LifeFacts.receiveAll_silent inputs _ (LifeFacts.teardown_unsubscribed c op))
    as (c' & Hr & _ & He).
  exists c'. split; [exact Hr|]. rewrite He.
  apply (ClientFacts.teardown_effect c op).
Qed.

(** X16: a subscribed Proxy republishes the payload objects the channel
    emits in their order, one local event per payload whose [items] is an
    array and none for the others, and issues no remote call for them. *)
Theorem live_proxy_republishes_in_order (ch : IChannel) (payloads : list Wire) :
  exists c',
    receiveAll (map (fun w => Emit (PObject w)) payloads) (Client.construct ch) = Ok c' /\
    onDidChangeItemsExternal c' = decodedArrays payloads /\
    calls (channel c') = calls ch.
Proof.
  pose proof (ClientFacts.listen_registers ch) as Hreg.
  assert (Hcon : exists d, onDidChangeItemsOnMainListener (Client.construct ch) = Some d /\
                           Channel.registered d (channel (Client.construct ch)) = true /\
                           calls (channel (Client.construct ch)) = calls ch /\
                           onDidChangeItemsExternal (Client.construct ch) = []).
  { unfold Client.construct. destruct (Channel.listen ch) as [d ch'] eqn:E.
    simpl in *. exists d. repeat split; auto.
    unfold Channel.listen in E. inversion E; subst. reflexivity. }
  destruct Hcon as (d & Hl & Hr & Hcalls & Hnone).
  destruct (@LifeFacts.deliver_all_live payloads (Client.construct ch) d Hl Hr)
    as (c' & Hall & Hc' & He').
  exists c'. split; [exact Hall|]. split; [now rewrite He', Hnone | now rewrite Hc'].
Qed.

(** ** Transparency of the queue *)

Section Queue.
Context {properties : WorkbenchCommonProperties}.

Lemma run_issue_ready (jobs : list (nat * Reaction)) (c : GlobalStorageDatabaseChannel) :
  whenReady c = Fulfilled -> run (issue jobs) c = fold_left execute jobs c.
Proof.
  revert c. induction jobs as [|[id r] rest IH]; intros c Hf; [reflexivity|].
  change (run (issue ((id, r) :: rest)) c)
    with (run (issue rest) (step c (InCall id (commandOf r) (argOf r)))).
  assert (Hstep : step c (InCall id (commandOf r) (argOf r)) = execute c (id, r)).
  { destruct r; simpl; unfold thenReady; rewrite Hf; reflexivity. }
  rewrite Hstep. simpl fold_left. apply IH.
  destruct (execute_trace c (id, r)) as (_ & Hw). now rewrite Hw.
Qed.

(** X17: calls issued while the channel is initializing have the effect
    they would have had if issued, in the same order, right after the
    initialization: the two runs end in the same state of the channel and
    of the storage, with the same replies. *)
Theorem queue_is_transparent
  (storage : StorageMainService) (jobs : list (nat * Reaction))
  (outcome : InitOutcome) (env : TelemetryEnv) :
  run (issue jobs ++ [InInitialized outcome env]) (construct storage)
  = run (InInitialized outcome env :: issue jobs) (construct storage).
Proof.
  rewrite run_app.
  rewrite (@run_issue_pending properties jobs (construct storage) [] eq_refl).
  change (run (InInitialized outcome env :: issue jobs) (construct storage))
    with (run (issue jobs) (initialized outcome env (construct storage))).
  rewrite run_issue_ready by (destruct outcome; reflexivity).
  destruct outcome; reflexivity.
Qed.
End Queue.
